(** * MultiSelectAutocomplete: the component's state machine

    A shallow embedding of [src/components/MultiSelectAutocomplete.tsx].
    The React component keeps eight [useState] cells; every handler is
    embedded as a function from the state of the render the handler closes
    over to the state after the handler's setter calls.  A handler that can
    raise a JavaScript exception returns a [completion].

    Spec names versus source names: queryText = [searchQuery],
    selection = [selectedCharacters], results = [searchResults],
    emphasizedIndex = [highlightedIndex], pointedIndex = [hoveredIndex]. *)

From Stdlib Require Import ZArith List String Ascii Bool Lia.
Import ListNotations.

Open Scope string_scope.
Open Scope Z_scope.

(** ** The fragment of JavaScript the component relies on *)

Module Js.

(** A JavaScript number restricted to what index arithmetic can produce:
    an integer (exact in a double below 2^53; [-0] is identified with [0],
    which [===] and array indexing cannot tell apart) or [NaN]. *)
Inductive number : Type :=
| Fin (z : Z)
| NaN.

Definition add (a b : number) : number :=
  match a, b with
  | Fin x, Fin y => Fin (x + y)
  | _, _ => NaN
  end.

Definition sub (a b : number) : number :=
  match a, b with
  | Fin x, Fin y => Fin (x - y)
  | _, _ => NaN
  end.

(** [a % b]: the remainder takes the sign of the dividend, and a zero
    divisor gives [NaN] (no exception). *)
Definition rem (a b : number) : number :=
  match a, b with
  | Fin x, Fin y => if y =? 0 then NaN else Fin (Z.rem x y)
  | _, _ => NaN
  end.

(** [a > b]; any comparison with [NaN] is false. *)
Definition gt (a b : number) : bool :=
  match a, b with
  | Fin x, Fin y => y <? x
  | _, _ => false
  end.

Inductive error : Type :=
| TypeError
| SyntaxError.

(** The outcome of running a piece of code: a value, or a thrown error. *)
Inductive completion (A : Type) : Type :=
| Normal (a : A)
| Throw (e : error).
Arguments Normal {A} a.
Arguments Throw {A} e.

Definition bind {A B : Type} (c : completion A) (k : A -> completion B)
  : completion B :=
  match c with
  | Normal a => k a
  | Throw e => Throw e
  end.

(** [arr.length] *)
Definition length {A : Type} (arr : list A) : number :=
  Fin (Z.of_nat (List.length arr)).

(** [arr[i]]: [None] is [undefined], the value of every index that is not
    an integer in [0, arr.length). *)
Definition get {A : Type} (arr : list A) (i : number) : option A :=
  match i with
  | Fin z => if z <? 0 then None else nth_error arr (Z.to_nat z)
  | NaN => None
  end.

(** [arr.slice(0, -1)]: a negative end counts from the back, so the copy
    stops one element before the end. *)
Definition slice_0_m1 {A : Type} (arr : list A) : list A :=
  firstn (List.length arr - 1) arr.

(** [arr.some(f)] and [arr.filter(f)] are [existsb] and [filter]. *)

(** Truthiness of a string: only the empty string is falsy. *)
Definition truthy (s : string) : bool :=
  match s with
  | EmptyString => false
  | String _ _ => true
  end.

(** *** Strings

    Strings are modelled with 8-bit characters; case mapping acts on the
    ASCII letters and leaves every other character alone.  This is what
    [toLowerCase] and the [i] flag do on strings of ASCII characters; a
    property that rests on case mapping is stated for such strings
    ([asciiOnly]). *)

Definition lowerChar (c : ascii) : ascii :=
  let n := nat_of_ascii c in
  if (Nat.leb 65 n && Nat.leb n 90)%bool then ascii_of_nat (n + 32) else c.

Definition upperChar (c : ascii) : ascii :=
  let n := nat_of_ascii c in
  if (Nat.leb 97 n && Nat.leb n 122)%bool then ascii_of_nat (n - 32) else c.

Fixpoint toLowerCase (s : string) : string :=
  match s with
  | EmptyString => EmptyString
  | String c r => String (lowerChar c) (toLowerCase r)
  end.

Fixpoint take (n : nat) (s : string) : string :=
  match n, s with
  | O, _ => EmptyString
  | S n', String c r => String c (take n' r)
  | S _, EmptyString => EmptyString
  end.

Fixpoint drop (n : nat) (s : string) : string :=
  match n, s with
  | O, _ => s
  | S n', String _ r => drop n' r
  | S _, EmptyString => EmptyString
  end.

(** [s.substring(from, to)] for [from <= to] *)
Definition slice (s : string) (from to : nat) : string :=
  take (to - from) (drop from s).

(** *** Regular expressions

    The pattern language is modelled for sources built from ordinary
    characters, [.] and parentheses (capturing groups).  The constructor
    rejects unbalanced parentheses with a [SyntaxError]; a source that
    uses any other syntax character lies outside the model. *)

#[local] Set Warnings "-register-all".

Inductive node : Type :=
| Char (c : ascii)
| Dot
| Group (body : list node).

Inductive compiled : Type :=
| Pattern (p : list node)
| Invalid
| OutsideFragment.

Definition isSyntaxCharacter (c : ascii) : bool :=
  existsb (Ascii.eqb c)
    ["^"; "$"; "\"; "."; "*"; "+"; "?"; "("; ")"; "["; "]"; "{"; "}"; "|"]%char.

(** [cur] holds, reversed, the terms of the innermost open group; [outer]
    the terms of the enclosing groups, innermost first. *)
Fixpoint parseTerms (src : string) (cur : list node)
    (outer : list (list node)) : compiled :=
  match src with
  | EmptyString =>
      match outer with
      | [] => Pattern (rev cur)
      | _ :: _ => Invalid                      (* unterminated group *)
      end
  | String c rest =>
      if Ascii.eqb c "(" then parseTerms rest [] (cur :: outer)
      else if Ascii.eqb c ")" then
        match outer with
        | [] => Invalid                        (* unmatched ')' *)
        | o :: outer' => parseTerms rest (Group (rev cur) :: o) outer'
        end
      else if Ascii.eqb c "." then parseTerms rest (Dot :: cur) outer
      else if isSyntaxCharacter c then OutsideFragment
      else parseTerms rest (Char c :: cur) outer
  end.

(** [new RegExp(source, "gi")] *)
Definition RegExp (source : string) : compiled :=
  parseTerms source [] [].

Definition isLineTerminator (c : ascii) : bool :=
  (Ascii.eqb c (ascii_of_nat 10) || Ascii.eqb c (ascii_of_nat 13))%bool.

(** Matching a term at the front of [s] under the [i] flag: the captures
    of the groups it contains, in the order of their opening parentheses,
    and the rest of the input. *)
Fixpoint matchNode (n : node) (s : string) {struct n}
  : option (list string * string) :=
  match n with
  | Char c =>
      match s with
      | String d r =>
          if Ascii.eqb (upperChar c) (upperChar d) then Some ([], r) else None
      | EmptyString => None
      end
  | Dot =>
      match s with
      | String d r => if isLineTerminator d then None else Some ([], r)
      | EmptyString => None
      end
  | Group body =>
      match
        (fix matchAll (ns : list node) (s' : string)
           : option (list string * string) :=
           match ns with
           | [] => Some ([], s')
           | n' :: ns' =>
               match matchNode n' s' with
               | None => None
               | Some (caps1, r1) =>
                   match matchAll ns' r1 with
                   | None => None
                   | Some (caps2, r2) => Some (caps1 ++ caps2, r2)
                   end
               end
           end) body s
      with
      | None => None
      | Some (caps, r) =>
          Some (slice s 0 (String.length s - String.length r) :: caps, r)
      end
  end%list.

Fixpoint matchNodes (ns : list node) (s : string)
  : option (list string * string) :=
  match ns with
  | [] => Some ([], s)
  | n :: ns' =>
      match matchNode n s with
      | None => None
      | Some (caps1, r1) =>
          match matchNodes ns' r1 with
          | None => None
          | Some (caps2, r2) => Some (caps1 ++ caps2, r2)
          end
      end
  end%list.

(** The loop of [RegExp.prototype[Symbol.split]]: [p] is the start of the
    pending piece, [q] the position tried next, [A] the pieces so far. *)
Fixpoint splitLoop (fuel : nat) (R : list node) (S : string) (p q : nat)
    (A : list string) : list string :=
  let size := String.length S in
  match fuel with
  | O => A ++ [slice S p size]
  | Datatypes.S fuel' =>
      if Nat.ltb q size then
        match matchNodes R (drop q S) with
        | None => splitLoop fuel' R S p (q + 1) A
        | Some (caps, r) =>
            let e := Nat.min (size - String.length r) size in
            if Nat.eqb e p then splitLoop fuel' R S p (q + 1) A
            else splitLoop fuel' R S e e (A ++ slice S p q :: caps)
        end
      else A ++ [slice S p size]
  end%list.

(** [S.split(R)] for a compiled pattern [R] *)
Definition split (S : string) (R : list node) : list string :=
  let size := String.length S in
  if Nat.eqb size 0 then
    match matchNodes R S with
    | Some _ => []
    | None => [S]
    end
  else splitLoop (2 * size + 1) R S 0 0 [].

End Js.

Import Js.

(** ** Data model *)

Record Character : Type := mkCharacter {
  id : Z;
  name : string;
  image : string;
  episodeCount : Z
}.

(** The [useState] cells of the component. *)
Record State : Type := mkState {
  searchQuery : string;
  selectedCharacters : list Character;
  searchResults : list Character;
  isLoading : bool;
  isError : bool;
  highlightedIndex : number;
  focusedSelectedIndex : option number;
  hoveredIndex : option number
}.

(** The state on mount. *)
Definition initialState : State :=
  mkState "" [] [] false false (Fin 0) None None.

(** The setters; each replaces one cell. *)
Definition setSearchQuery (v : string) (st : State) : State :=
  mkState v (selectedCharacters st) (searchResults st) (isLoading st)
    (isError st) (highlightedIndex st) (focusedSelectedIndex st)
    (hoveredIndex st).

Definition setSelectedCharacters (v : list Character) (st : State) : State :=
  mkState (searchQuery st) v (searchResults st) (isLoading st) (isError st)
    (highlightedIndex st) (focusedSelectedIndex st) (hoveredIndex st).

Definition setSearchResults (v : list Character) (st : State) : State :=
  mkState (searchQuery st) (selectedCharacters st) v (isLoading st)
    (isError st) (highlightedIndex st) (focusedSelectedIndex st)
    (hoveredIndex st).

Definition setIsLoading (v : bool) (st : State) : State :=
  mkState (searchQuery st) (selectedCharacters st) (searchResults st) v
    (isError st) (highlightedIndex st) (focusedSelectedIndex st)
    (hoveredIndex st).

Definition setIsError (v : bool) (st : State) : State :=
  mkState (searchQuery st) (selectedCharacters st) (searchResults st)
    (isLoading st) v (highlightedIndex st) (focusedSelectedIndex st)
    (hoveredIndex st).

Definition setHighlightedIndex (v : number) (st : State) : State :=
  mkState (searchQuery st) (selectedCharacters st) (searchResults st)
    (isLoading st) (isError st) v (focusedSelectedIndex st) (hoveredIndex st).

Definition setHoveredIndex (v : option number) (st : State) : State :=
  mkState (searchQuery st) (selectedCharacters st) (searchResults st)
    (isLoading st) (isError st) (highlightedIndex st)
    (focusedSelectedIndex st) v.

(** [OtherCellsKept st st']: every cell but the selection has in [st'] the
    value it has in [st]. *)
Definition OtherCellsKept (st st' : State) : Prop :=
  searchQuery st' = searchQuery st
  /\ searchResults st' = searchResults st
  /\ isLoading st' = isLoading st
  /\ isError st' = isError st
  /\ highlightedIndex st' = highlightedIndex st
  /\ focusedSelectedIndex st' = focusedSelectedIndex st
  /\ hoveredIndex st' = hoveredIndex st.

(** ** The lookup *)

(** One entry of [response.data.results]; [episode] is [None] when the
    payload lacks the array. *)
Record RawCharacter : Type := mkRaw {
  raw_id : Z;
  raw_name : string;
  raw_image : string;
  raw_episode : option (list string)
}.

(** How the request promise settles: rejected (network error, non-2xx), or
    resolved with a body whose [results] may be missing. *)
Inductive Reply : Type :=
| Rejected
| Resolved (results : option (list RawCharacter)).

(** The callback of [results.map]: reading [episode.length] of a missing
    array throws. *)
Definition toCharacter (character : RawCharacter) : completion Character :=
  match raw_episode character with
  | Some episode =>
      Normal (mkCharacter (raw_id character) (raw_name character)
                (raw_image character) (Z.of_nat (List.length episode)))
  | None => Throw TypeError
  end.

Fixpoint mapCharacters (rs : list RawCharacter) : completion (list Character) :=
  match rs with
  | [] => Normal []
  | r :: rs' =>
      bind (toCharacter r) (fun c =>
      bind (mapCharacters rs') (fun cs => Normal (c :: cs)))
  end.

(** The [.then] handler. *)
Definition onFulfilled (results : option (list RawCharacter)) (st : State)
  : completion State :=
  match results with
  | None => Throw TypeError
  | Some rs =>
      bind (mapCharacters rs) (fun characters =>
      Normal (setIsLoading false (setSearchResults characters st)))
  end.

(** The [.catch] handler. *)
Definition onRejected (st : State) : State :=
  setIsLoading false (setIsError true st).

(** [promise.then(onFulfilled).catch(onRejected)]: the catch handler also
    receives what the then handler throws. *)
Definition settle (reply : Reply) (st : State) : State :=
  match reply with
  | Rejected => onRejected st
  | Resolved results =>
      match onFulfilled results st with
      | Normal st' => st'
      | Throw _ => onRejected st
      end
  end.

(** The body of [useEffect(..., [searchQuery])]: the new state and the name
    filter of the request it sends, if any. *)
Definition lookupEffect (st : State) : State * option string :=
  if gt (Fin (Z.of_nat (String.length (searchQuery st)))) (Fin 0)
  then (setIsLoading true st, Some (searchQuery st))
  else (st, None).

(** ** Handlers *)

Definition updateSearchQuery (newQuery : string) (st : State) : State :=
  setIsError false (setSearchQuery newQuery st).

Definition isCharacterSelected (i : Z) (st : State) : bool :=
  existsb (fun character => id character =? i) (selectedCharacters st).

(** [character] is [None] for [undefined], which the caller in
    [handleKeyDown] can pass; reading [character.id] then throws. *)
Definition selectCharacter (character : option Character) (st : State)
  : completion State :=
  match character with
  | None => Throw TypeError
  | Some ch =>
      if isCharacterSelected (id ch) st then
        Normal (setSelectedCharacters
                  (filter (fun c => negb (id c =? id ch))
                     (selectedCharacters st)) st)
      else
        Normal (setSelectedCharacters (selectedCharacters st ++ [ch]) st)
  end.

Definition removeCharacter (characterId : Z) (st : State) : State :=
  setSelectedCharacters
    (filter (fun character => negb (id character =? characterId))
       (selectedCharacters st)) st.

(** An inner [<span>] of the highlighted text. *)
Record Span : Type := mkSpan {
  bold : bool;
  content : string
}.

(** [None] stands for a query whose pattern lies outside the modelled
    fragment of the pattern language. *)
Definition highlightText (text query : string)
  : option (completion (list Span)) :=
  match RegExp ("(" ++ query ++ ")") with
  | OutsideFragment => None
  | Invalid => Some (Throw SyntaxError)
  | Pattern R =>
      let parts := split text R in
      Some (Normal
        (map (fun part =>
                mkSpan (String.eqb (toLowerCase part) (toLowerCase query)) part)
           parts))
  end.

(** What a key press leaves behind: the next state, and whether
    [event.preventDefault()] was called. *)
Record KeyOutcome : Type := mkKeyOutcome {
  next : State;
  defaultPrevented : bool
}.

Definition handleKeyDown (key : string) (st : State) : completion KeyOutcome :=
  let len := Js.length (searchResults st) in
  if (key =? "ArrowDown")%string || (key =? "ArrowUp")%string then
    let st1 :=
      setHighlightedIndex
        (let prevIndex := highlightedIndex st in
         if (key =? "ArrowDown")%string then rem (add prevIndex (Fin 1)) len
         else rem (add (sub prevIndex (Fin 1)) len) len) st in
    let st2 :=
      setHoveredIndex
        (if (key =? "ArrowDown")%string then
           match hoveredIndex st1 with
           | Some prevIndex => Some (rem (add prevIndex (Fin 1)) len)
           | None => Some (Fin 0)
           end
         else
           match hoveredIndex st1 with
           | Some prevIndex => Some (rem (add (sub prevIndex (Fin 1)) len) len)
           | None => Some (sub len (Fin 1))
           end) st1 in
    Normal (mkKeyOutcome st2 false)
  else if (key =? "Enter")%string then
    (* [highlightedIndex !== null] holds of every number *)
    if gt len (Fin 0) then
      bind (selectCharacter
              (get (searchResults st) (sub (highlightedIndex st) (Fin 1))) st)
        (fun st' => Normal (mkKeyOutcome st' true))
    else Normal (mkKeyOutcome st false)
  else if (key =? "Backspace")%string || (key =? "Delete")%string then
    if negb (truthy (searchQuery st))
       && gt (Js.length (selectedCharacters st)) (Fin 0)
    then Normal (mkKeyOutcome
                   (setSelectedCharacters
                      (slice_0_m1 (selectedCharacters st)) st) false)
    else Normal (mkKeyOutcome st false)
  else if (key =? "Tab")%string then Normal (mkKeyOutcome st false)
  else Normal (mkKeyOutcome st false).

Definition handleMouseEnter (index : number) (st : State) : State :=
  setHoveredIndex (Some index) st.

Definition handleMouseLeave (st : State) : State :=
  setHoveredIndex None st.

(** ** The component as a transition system *)

(** The component together with the name filters of the requests that have
    not settled yet. *)
Record World : Type := mkWorld {
  ui : State;
  pending : list string
}.

Definition mount : World := mkWorld initialState [].

Inductive Event : Type :=
| Change (value : string)            (* typing into the text input *)
| KeyDown (key : string)             (* key press in the text input *)
| ClickTag (index : nat)             (* click on a selected tag *)
| ClickResult (index : nat)          (* click on a result row or its box *)
| MouseEnter (index : nat)           (* pointer enters a result row *)
| MouseLeave                         (* pointer leaves a result row *)
| Settle (request : nat) (reply : Reply). (* a pending request settles *)

Fixpoint removeNth {A : Type} (n : nat) (l : list A) : list A :=
  match n, l with
  | _, [] => []
  | O, _ :: l' => l'
  | S n', x :: l' => x :: removeNth n' l'
  end.

(** One event.  An event aimed at a row, tag or request that does not
    exist cannot happen and leaves the world as it is. *)
Definition step (e : Event) (w : World) : completion World :=
  let st := ui w in
  match e with
  | Change value =>
      let st1 := updateSearchQuery value st in
      if String.eqb value (searchQuery st) then Normal (mkWorld st1 (pending w))
      else
        match lookupEffect st1 with
        | (st2, Some request) => Normal (mkWorld st2 (pending w ++ [request]))
        | (st2, None) => Normal (mkWorld st2 (pending w))
        end
  | KeyDown key =>
      bind (handleKeyDown key st) (fun o => Normal (mkWorld (next o) (pending w)))
  | ClickTag index =>
      match nth_error (selectedCharacters st) index with
      | Some character =>
          Normal (mkWorld (removeCharacter (id character) st) (pending w))
      | None => Normal w
      end
  | ClickResult index =>
      match nth_error (searchResults st) index with
      | Some character =>
          bind (selectCharacter (Some character) st)
            (fun st' => Normal (mkWorld st' (pending w)))
      | None => Normal w
      end
  | MouseEnter index =>
      match nth_error (searchResults st) index with
      | Some _ =>
          Normal (mkWorld (handleMouseEnter (Fin (Z.of_nat index)) st) (pending w))
      | None => Normal w
      end
  | MouseLeave => Normal (mkWorld (handleMouseLeave st) (pending w))
  | Settle request reply =>
      match nth_error (pending w) request with
      | Some _ => Normal (mkWorld (settle reply st) (removeNth request (pending w)))
      | None => Normal w
      end
  end.

Fixpoint run (es : list Event) (w : World) : completion World :=
  match es with
  | [] => Normal w
  | e :: es' => bind (step e w) (run es')
  end.

(** A world the user and the network can bring about from the mount. *)
Definition Reachable (w : World) : Prop :=
  exists es, run es mount = Normal w.

(** Entries of a selection are unique by [id]. *)
Definition UniqueIds (sel : list Character) : Prop :=
  NoDup (map id sel).

(** [WithoutId i sel sel']: [sel'] is [sel] with the entries whose id is [i]
    taken out and every other entry kept, in the order it had. *)
Inductive WithoutId (i : Z) : list Character -> list Character -> Prop :=
| without_nil : WithoutId i [] []
| without_drop c sel sel' :
    id c = i -> WithoutId i sel sel' -> WithoutId i (c :: sel) sel'
| without_keep c sel sel' :
    id c <> i -> WithoutId i sel sel' -> WithoutId i (c :: sel) (c :: sel').

(** Key presses one after the other, each handled in the state the
    previous one left. *)
Fixpoint pressKeys (keys : list string) (st : State) : completion State :=
  match keys with
  | [] => Normal st
  | key :: keys' =>
      bind (handleKeyDown key st) (fun o => pressKeys keys' (next o))
  end.

(** The ways a lookup fails: the request is rejected, the body has no
    [results] array, or an entry of it has no [episode] array. *)
Inductive LookupFailed : Reply -> Prop :=
| failed_rejected : LookupFailed Rejected
| failed_no_results : LookupFailed (Resolved None)
| failed_no_episode rs r :
    In r rs -> raw_episode r = None -> LookupFailed (Resolved (Some rs)).

(** [FromPayload r c]: the row [c] shows the payload entry [r], and counts
    its episodes. *)
Definition FromPayload (r : RawCharacter) (c : Character) : Prop :=
  id c = raw_id r /\ name c = raw_name r /\ image c = raw_image r
  /\ exists episode,
       raw_episode r = Some episode
       /\ episodeCount c = Z.of_nat (List.length episode).

(** What the handlers keep of the three index cells. *)
Definition IndicesKept (st : State) : Prop :=
  focusedSelectedIndex st = None
  /\ (highlightedIndex st = NaN
      \/ exists i, highlightedIndex st = Fin i /\ 0 <= i)
  /\ (hoveredIndex st = None \/ hoveredIndex st = Some NaN
      \/ exists j, hoveredIndex st = Some (Fin j) /\ -1 <= j).

(** ** Rendering *)

(** [a === b] on numbers: [NaN] equals nothing, itself included. *)
Definition strictEquals (a b : number) : bool :=
  match a, b with
  | Fin x, Fin y => x =? y
  | _, _ => false
  end.

(** [index === cell] for a cell of type [number | null]. *)
Definition equalsCell (index : number) (cell : option number) : bool :=
  match cell with
  | Some n => strictEquals index n
  | None => false
  end.

(** A selected tag: its React key and the name it shows before the "x". *)
Record Tag : Type := mkTag {
  tagKey : Z;
  tagName : string
}.

(** A result row: key, class attribute, state of the checkbox, thumbnail,
    highlighted name, and the number shown before " Episodes". *)
Record ResultRow : Type := mkResultRow {
  rowKey : Z;
  className : string;
  checked : bool;
  imgSrc : string;
  imgAlt : string;
  nameSpans : list Span;
  episodes : Z
}.

(** What the component returns: the tags, the value of the text input,
    whether the loading and error lines are shown, and the rows. *)
Record View : Type := mkView {
  tags : list Tag;
  inputValue : string;
  showLoading : bool;
  showError : bool;
  rows : list ResultRow
}.

Definition rowClassName (index : nat) (st : State) : string :=
  "result-item "
  ++ (if equalsCell (Fin (Z.of_nat index)) (hoveredIndex st)
      then "hovered" else "")
  ++ " "
  ++ (if equalsCell (Fin (Z.of_nat index)) (focusedSelectedIndex st)
      then "focused" else "").

(** [searchResults.map((character, index) => ...)] from position [index]
    on; the first row whose name cannot be highlighted ends the render. *)
Fixpoint renderRows (st : State) (index : nat) (characters : list Character)
  : option (completion (list ResultRow)) :=
  match characters with
  | [] => Some (Normal [])
  | character :: characters' =>
      match highlightText (name character) (searchQuery st) with
      | None => None
      | Some (Throw e) => Some (Throw e)
      | Some (Normal spans) =>
          match renderRows st (S index) characters' with
          | None => None
          | Some (Throw e) => Some (Throw e)
          | Some (Normal rest) =>
              Some (Normal
                (mkResultRow (id character) (rowClassName index st)
                   (isCharacterSelected (id character) st)
                   (image character) (name character) spans
                   (episodeCount character)
                 :: rest))
          end
      end
  end.

(** The body of the component's [return]. *)
Definition render (st : State) : option (completion View) :=
  match renderRows st 0 (searchResults st) with
  | None => None
  | Some (Throw e) => Some (Throw e)
  | Some (Normal rs) =>
      Some (Normal
        (mkView
           (map (fun character => mkTag (id character) (name character))
              (selectedCharacters st))
           (searchQuery st) (isLoading st) (isError st) rs))
  end.

(** ** What highlighting is to achieve *)

(** No character of [s] has a meaning in the pattern language. *)
Fixpoint plainQuery (s : string) : bool :=
  match s with
  | EmptyString => true
  | String c r => negb (isSyntaxCharacter c) && plainQuery r
  end.

(** Every character of [s] is an ASCII character (code below 128). *)
Fixpoint asciiOnly (s : string) : bool :=
  match s with
  | EmptyString => true
  | String c r => Nat.ltb (nat_of_ascii c) 128 && asciiOnly r
  end.

(** [s] begins with [q], letter case aside. *)
Fixpoint startsWithCI (q s : string) : bool :=
  match q, s with
  | EmptyString, _ => true
  | String c q', String d s' =>
      Ascii.eqb (lowerChar c) (lowerChar d) && startsWithCI q' s'
  | String _ _, EmptyString => false
  end.

(** [Highlighted q text spans]: [spans] cuts [text] at the occurrences of
    [q], letter case aside, taken from the left and not overlapping; the
    occurrences are bold and the stretches between them plain. *)
Inductive Highlighted (q : string) : string -> list Span -> Prop :=
| highlighted_rest text :
    (forall k, startsWithCI q (drop k text) = false) ->
    Highlighted q text [mkSpan false text]
| highlighted_occurrence before occ after spans :
    (forall k, (k < String.length before)%nat ->
               startsWithCI q (drop k (before ++ occ ++ after)) = false) ->
    String.length occ = String.length q ->
    startsWithCI q occ = true ->
    Highlighted q after spans ->
    Highlighted q (before ++ occ ++ after)
      (mkSpan false before :: mkSpan true occ :: spans).

(** What the empty query makes of a text: a piece per character, with an
    empty piece between two of them. *)
Fixpoint emptyQueryParts (text : string) : list string :=
  match text with
  | EmptyString => []
  | String c rest =>
      String c EmptyString
      :: match rest with
         | EmptyString => []
         | String _ _ => EmptyString :: emptyQueryParts rest
         end
  end.

Definition emptyQuerySpans (text : string) : list Span :=
  map (fun part => mkSpan (String.eqb (toLowerCase part) EmptyString) part)
    (emptyQueryParts text).

(** ** Sample data *)

Definition rick : Character := mkCharacter 1 "Rick Sanchez" "rick.jpeg" 51.
Definition morty : Character := mkCharacter 2 "Morty Smith" "morty.jpeg" 51.
Definition summer : Character := mkCharacter 3 "Summer Smith" "summer.jpeg" 42.

(** A payload entry and the row the [.then] handler makes of it. *)
Definition rawRow (i : Z) : RawCharacter :=
  mkRaw i "Rick" "rick.jpeg" (Some ["S01E01"]).

Definition row (i : Z) : Character := mkCharacter i "Rick" "rick.jpeg" 1.

(** Typing "r" and receiving three rows. *)
Definition firstLookup : list Event :=
  [Change "r"; Settle 0 (Resolved (Some (map rawRow [1; 2; 3])))].

Definition firstLookupState : State :=
  mkState "r" [] (map row [1; 2; 3]) false false (Fin 0) None None.

(** Typing "r", receiving six rows, moving down five times, then typing
    "ri" and receiving three rows: the index now lies beyond the rows. *)
Definition staleIndex : list Event :=
  [Change "r"; Settle 0 (Resolved (Some (map rawRow [1; 2; 3; 4; 5; 6])))]
  ++ repeat (KeyDown "ArrowDown") 5
  ++ [Change "ri"; Settle 0 (Resolved (Some (map rawRow [1; 2; 3])))].

Definition staleIndexState : State :=
  mkState "ri" [] (map row [1; 2; 3]) false false (Fin 5) None (Some (Fin 4)).

(** ** Properties *)

Open Scope list_scope.

Section Selection.

Implicit Types (sel : list Character) (i : Z).

Lemma some_id_spec sel i :
  existsb (fun character => id character =? i) sel = true <->
  In i (map id sel).
Proof.
  rewrite existsb_exists, in_map_iff. split.
  - intros (c & Hin & Heq). apply Z.eqb_eq in Heq. now exists c.
  - intros (c & Heq & Hin). exists c. split; [assumption|]. now apply Z.eqb_eq.
Qed.

Lemma some_id_false sel i :
  existsb (fun character => id character =? i) sel = false <->
  ~ In i (map id sel).
Proof.
  rewrite <- some_id_spec. now destruct (existsb _ sel).
Qed.

Lemma filter_WithoutId sel i :
  WithoutId i sel (filter (fun c => negb (id c =? i)) sel).
Proof.
  induction sel as [|c sel IH]; simpl.
  - constructor.
  - destruct (Z.eqb_spec (id c) i); simpl.
    + now apply without_drop.
    + now apply without_keep.
Qed.

Lemma WithoutId_functional sel i sel1 sel2 :
  WithoutId i sel sel1 -> WithoutId i sel sel2 -> sel1 = sel2.
Proof.
  intros H1. revert sel2.
  induction H1; intros sel2 H2; inversion H2; subst;
    try contradiction; auto.
  f_equal. auto.
Qed.

Lemma filter_no_id sel i :
  ~ In i (map id (filter (fun c => negb (id c =? i)) sel)).
Proof.
  rewrite in_map_iff. intros (c & Heq & Hin).
  apply filter_In in Hin. destruct Hin as [_ Hne].
  apply negb_true_iff, Z.eqb_neq in Hne. contradiction.
Qed.

Lemma filter_absent sel i :
  ~ In i (map id sel) -> filter (fun c => negb (id c =? i)) sel = sel.
Proof.
  induction sel as [|c sel IH]; simpl; intros Hn; [reflexivity|].
  destruct (Z.eqb_spec (id c) i); simpl.
  - exfalso. apply Hn. now left.
  - f_equal. apply IH. intros Hin. apply Hn. now right.
Qed.

Lemma filter_single before e after :
  ~ In (id e) (map id before) -> ~ In (id e) (map id after) ->
  filter (fun c => negb (id c =? id e)) (before ++ e :: after)
  = before ++ after.
Proof.
  intros Hb Ha. rewrite filter_app. simpl.
  rewrite Z.eqb_refl. simpl.
  now rewrite !filter_absent.
Qed.

Lemma in_ids_filter sel (f : Character -> bool) i :
  In i (map id (filter f sel)) -> In i (map id sel).
Proof.
  rewrite !in_map_iff. intros (c & Heq & Hin).
  apply filter_In in Hin. exists c. tauto.
Qed.

Lemma UniqueIds_filter sel (f : Character -> bool) :
  UniqueIds sel -> UniqueIds (filter f sel).
Proof.
  unfold UniqueIds. induction sel as [|c sel IH]; simpl; intros Hu.
  - constructor.
  - inversion Hu as [|? ? Hnotin Hrest]; subst.
    destruct (f c); simpl; auto.
    constructor; auto.
    intros Hin. apply Hnotin. eapply in_ids_filter. eassumption.
Qed.

Lemma UniqueIds_snoc sel c :
  UniqueIds sel -> ~ In (id c) (map id sel) -> UniqueIds (sel ++ [c]).
Proof.
  unfold UniqueIds. intros Hu Hn. rewrite map_app. simpl.
  induction (map id sel) as [|j js IH]; simpl.
  - constructor; [intros []|constructor].
  - inversion Hu as [|? ? Hj Hjs]; subst. constructor.
    + rewrite in_app_iff. intros [Hin|[Heq|[]]]; [contradiction|].
      apply Hn. now left.
    + apply IH; [assumption|]. intros Hin. apply Hn. now right.
Qed.

Lemma slice_0_m1_snoc {A : Type} (front : list A) (last : A) :
  slice_0_m1 (front ++ [last]) = front.
Proof.
  unfold slice_0_m1. rewrite length_app. simpl.
  replace (List.length front + 1 - 1)%nat with (List.length front + 0)%nat
    by lia.
  rewrite firstn_app_2. simpl. apply app_nil_r.
Qed.

Lemma slice_0_m1_firstn {A : Type} (l : list A) :
  exists n, slice_0_m1 l = firstn n l.
Proof. now exists (List.length l - 1)%nat. Qed.

Lemma UniqueIds_firstn sel n :
  UniqueIds sel -> UniqueIds (firstn n sel).
Proof.
  unfold UniqueIds. intros Hu.
  rewrite <- (firstn_skipn n sel), map_app in Hu.
  now apply NoDup_app_remove_r in Hu.
Qed.

End Selection.

(** *** Toggling a selection entry *)

(** C1. For every selection and every item [x], [selectCharacter x] returns
    normally and touches no cell but the selection.  When no entry has
    [x]'s id, the selection afterwards is the former one with [x] appended.
    When an entry has it, the selection afterwards is the former one
    without that id and with every other entry in its place (in particular,
    an entry that is the only one with the id is cut out from between its
    neighbours). *)
Theorem selectCharacter_toggle (st : State) (x : Character) :
  exists st',
    selectCharacter (Some x) st = Normal st'
    /\ OtherCellsKept st st'
    /\ (~ In (id x) (map id (selectedCharacters st)) ->
        selectedCharacters st' = selectedCharacters st ++ [x])
    /\ (In (id x) (map id (selectedCharacters st)) ->
        WithoutId (id x) (selectedCharacters st) (selectedCharacters st')
        /\ ~ In (id x) (map id (selectedCharacters st'))
        /\ (forall before e after,
              selectedCharacters st = before ++ e :: after ->
              id e = id x ->
              ~ In (id x) (map id before) -> ~ In (id x) (map id after) ->
              selectedCharacters st' = before ++ after)).
Proof.
  unfold selectCharacter, isCharacterSelected.
  destruct (existsb _ (selectedCharacters st)) eqn:Hsome;
    eexists; (split; [reflexivity|]); (split; [repeat split|]);
    cbn [selectedCharacters setSelectedCharacters]; split; intros H.
  - apply some_id_false in H. congruence.
  - split; [apply filter_WithoutId|]. split; [apply filter_no_id|].
    intros before e after Hsel He Hbefore Hafter.
    rewrite Hsel, <- He. apply filter_single; now rewrite He.
  - reflexivity.
  - apply some_id_spec in H. congruence.
Qed.

(** Toggling Summer into [rick; morty] and Rick out of [rick; morty]. *)
Lemma selectCharacter_toggle_witness :
  (exists st',
      selectCharacter (Some summer)
        (setSelectedCharacters [rick; morty] initialState) = Normal st'
      /\ selectedCharacters st' = [rick; morty; summer])
  /\ (exists st',
        selectCharacter (Some rick)
          (setSelectedCharacters [rick; morty] initialState) = Normal st'
        /\ selectedCharacters st' = [morty]).
Proof.
  pose (st := setSelectedCharacters [rick; morty] initialState).
  split.
  - destruct (selectCharacter_toggle st summer) as (st' & Hrun & _ & Happend & _).
    exists st'. split; [exact Hrun|].
    apply Happend. simpl. intros [H|[H|[]]]; discriminate H.
  - destruct (selectCharacter_toggle st rick) as (st' & Hrun & _ & _ & Hremove).
    exists st'. split; [exact Hrun|].
    destruct Hremove as (_ & _ & Hcut); [simpl; now left|].
    apply (Hcut [] rick [morty]); simpl; try reflexivity.
    + intros [].
    + intros [H|[]]; discriminate H.
Defined.

(** *** Editing the query *)

(** C4. For every string [s] and every prior state, [updateSearchQuery s]
    leaves [searchQuery = s] and [isError = false]; this holds whatever
    [isError] was, and both before and after the lookup effect has run,
    whether or not that effect sends a request. *)
Theorem updateSearchQuery_sets_query_clears_error (s : string) (st : State) :
  let st' := updateSearchQuery s st in
  (searchQuery st' = s /\ isError st' = false)
  /\ (searchQuery (fst (lookupEffect st')) = s
      /\ isError (fst (lookupEffect st')) = false)
  /\ (forall w, ui w = st ->
        exists w', step (Change s) w = Normal w'
                   /\ searchQuery (ui w') = s /\ isError (ui w') = false).
Proof.
  cbv zeta. split; [now split|]. split.
  - unfold lookupEffect. destruct (gt _ _); now split.
  - intros w <-. unfold step.
    destruct (String.eqb s (searchQuery (ui w))).
    + eexists. split; [reflexivity|]. now split.
    + unfold lookupEffect. destruct (gt _ _); eexists;
        (split; [reflexivity|]); now split.
Qed.

(** *** A failed lookup *)

Lemma mapCharacters_missing_episode rs r :
  In r rs -> raw_episode r = None -> mapCharacters rs = Throw TypeError.
Proof.
  induction rs as [|r0 rs IH]; simpl; intros Hin Hnone; [contradiction|].
  unfold toCharacter at 1.
  destruct (raw_episode r0) eqn:E0; simpl; [|reflexivity].
  destruct Hin as [->|Hin]; [congruence|].
  now rewrite (IH Hin Hnone).
Qed.

(** C5. Whenever a lookup fails, the failure handler leaves [isError] true
    and [isLoading] false, [searchResults] exactly as it was, and every
    other cell untouched. *)
Theorem settle_failed_lookup (reply : Reply) (st : State) :
  LookupFailed reply ->
  settle reply st
  = mkState (searchQuery st) (selectedCharacters st) (searchResults st)
      false true (highlightedIndex st) (focusedSelectedIndex st)
      (hoveredIndex st)
  /\ isError (settle reply st) = true
  /\ isLoading (settle reply st) = false
  /\ searchResults (settle reply st) = searchResults st.
Proof.
  intros Hfail.
  assert (Hrun : settle reply st = onRejected st).
  { destruct Hfail as [| |rs r Hin Hnone]; try reflexivity.
    simpl. now rewrite (mapCharacters_missing_episode rs r Hin Hnone). }
  rewrite Hrun. repeat split.
Qed.

(** A rejected request, and a body whose second entry lacks [episode],
    against a state showing earlier results and a spinner. *)
Lemma settle_failed_lookup_witness :
  let st := mkState "abc" [rick] [rick; morty] true false (Fin 1) None None in
  searchResults (settle Rejected st) = [rick; morty]
  /\ isError
       (settle (Resolved (Some [mkRaw 1 "Rick" "r.jpeg" (Some ["e1"]);
                                mkRaw 2 "Morty" "m.jpeg" None])) st) = true.
Proof.
  cbv zeta. split.
  - apply (settle_failed_lookup Rejected). constructor.
  - apply (settle_failed_lookup
             (Resolved (Some [mkRaw 1 "Rick" "r.jpeg" (Some ["e1"]);
                              mkRaw 2 "Morty" "m.jpeg" None]))).
    apply failed_no_episode with (r := mkRaw 2 "Morty" "m.jpeg" None).
    + simpl. right. now left.
    + reflexivity.
Defined.

(** *** Keys *)

(** [key] is not one of [names]: every test of [key] against one of them
    is false. *)
Ltac other_key H :=
  repeat match goal with
    | |- context [String.eqb ?k ?name] =>
        let E := fresh "E" in
        destruct (String.eqb_spec k name) as [E|E];
        [exfalso; apply H; rewrite E; simpl; solve [auto 10]|clear E]
    end.

(** C10. For every key other than ArrowDown, ArrowUp, Enter, Backspace and
    Delete (Tab among them), the key-down handler returns normally, leaves
    the whole state as it was and does not suppress the default action. *)
Theorem handleKeyDown_other_key (key : string) (st : State) :
  ~ In key ["ArrowDown"; "ArrowUp"; "Enter"; "Backspace"; "Delete"]%string ->
  handleKeyDown key st = Normal (mkKeyOutcome st false).
Proof.
  intros Hkey. unfold handleKeyDown.
  other_key Hkey. simpl.
  now destruct (String.eqb key "Tab").
Qed.

Lemma handleKeyDown_other_key_witness :
  handleKeyDown "Tab" (mkState "ri" [rick] [rick; morty] true true (Fin 1) None (Some (Fin 0)))
  = Normal (mkKeyOutcome
              (mkState "ri" [rick] [rick; morty] true true (Fin 1) None (Some (Fin 0)))
              false)
  /\ handleKeyDown "a" initialState = Normal (mkKeyOutcome initialState false).
Proof.
  split; apply handleKeyDown_other_key; simpl;
    intros [H|[H|[H|[H|[H|[]]]]]]; discriminate H.
Defined.

Lemma handleKeyDown_delete_keys (key : string) (st : State) :
  key = "Backspace"%string \/ key = "Delete"%string ->
  handleKeyDown key st
  = if negb (truthy (searchQuery st))
       && gt (Js.length (selectedCharacters st)) (Fin 0)
    then Normal (mkKeyOutcome
                   (setSelectedCharacters
                      (slice_0_m1 (selectedCharacters st)) st) false)
    else Normal (mkKeyOutcome st false).
Proof.
  intros [-> | ->]; reflexivity.
Qed.

(** C6. Backspace (or Delete) returns normally, does not suppress the
    default action and touches no cell but the selection.  In a state with
    an empty query and a non-empty selection, the selection afterwards is
    the former one without its last entry, the rest in place; with an empty
    selection the state afterwards is the state before. *)
Theorem backspace_removes_last (key : string) (st : State) :
  key = "Backspace"%string \/ key = "Delete"%string ->
  exists o,
    handleKeyDown key st = Normal o
    /\ defaultPrevented o = false
    /\ OtherCellsKept st (next o)
    /\ (forall front last,
          searchQuery st = ""%string ->
          selectedCharacters st = front ++ [last] ->
          selectedCharacters (next o) = front)
    /\ (selectedCharacters st = [] -> next o = st).
Proof.
  intros Hkey. rewrite (handleKeyDown_delete_keys key st Hkey).
  destruct (negb (truthy (searchQuery st))
            && gt (Js.length (selectedCharacters st)) (Fin 0)) eqn:Hgo;
    eexists; (split; [reflexivity|]); (split; [reflexivity|]);
    (split; [repeat split|]); cbn [next selectedCharacters setSelectedCharacters];
    split.
  - intros front last _ Hsel. rewrite Hsel. apply slice_0_m1_snoc.
  - intros Hsel. rewrite Hsel in Hgo. simpl in Hgo.
    rewrite andb_false_r in Hgo. discriminate Hgo.
  - intros front last Hq Hsel. exfalso.
    rewrite Hq, Hsel in Hgo. unfold Js.length in Hgo.
    rewrite length_app in Hgo. simpl in Hgo.
    apply Z.ltb_ge in Hgo. lia.
  - reflexivity.
Qed.

Lemma backspace_removes_last_witness :
  (exists o,
      handleKeyDown "Backspace"
        (setSelectedCharacters [rick; morty; summer] initialState) = Normal o
      /\ selectedCharacters (next o) = [rick; morty])
  /\ (exists o,
        handleKeyDown "Delete" initialState = Normal o
        /\ next o = initialState).
Proof.
  split.
  - destruct (backspace_removes_last "Backspace"
                (setSelectedCharacters [rick; morty; summer] initialState)
                (or_introl eq_refl)) as (o & Hrun & _ & _ & Hlast & _).
    exists o. split; [exact Hrun|].
    apply (Hlast [rick; morty] summer); reflexivity.
  - destruct (backspace_removes_last "Delete" initialState (or_intror eq_refl))
      as (o & Hrun & _ & _ & _ & Hnone).
    exists o. split; [exact Hrun|]. apply Hnone. reflexivity.
Defined.

(** *** Uniqueness of the selection *)

Lemma selectCharacter_unique (st st' : State) (character : option Character) :
  UniqueIds (selectedCharacters st) ->
  selectCharacter character st = Normal st' ->
  UniqueIds (selectedCharacters st').
Proof.
  intros Hu. unfold selectCharacter, isCharacterSelected.
  destruct character as [ch|]; [|discriminate].
  destruct (existsb _ _) eqn:E; intros [= <-]; simpl.
  - now apply UniqueIds_filter.
  - apply UniqueIds_snoc; [assumption|]. now apply some_id_false.
Qed.

Lemma removeCharacter_unique (st : State) (i : Z) :
  UniqueIds (selectedCharacters st) ->
  UniqueIds (selectedCharacters (removeCharacter i st)).
Proof. intros Hu. simpl. now apply UniqueIds_filter. Qed.

Lemma handleKeyDown_unique (key : string) (st : State) (o : KeyOutcome) :
  UniqueIds (selectedCharacters st) ->
  handleKeyDown key st = Normal o ->
  UniqueIds (selectedCharacters (next o)).
Proof.
  intros Hu. unfold handleKeyDown.
  destruct (_ || _)%bool; [intros [= <-]; exact Hu|].
  destruct (String.eqb key "Enter").
  { destruct (gt _ _); [|intros [= <-]; exact Hu].
    destruct (selectCharacter _ st) as [st'|] eqn:E; simpl; [|discriminate].
    intros [= <-]. simpl. eapply selectCharacter_unique; eassumption. }
  destruct (_ || _)%bool.
  { destruct (_ && _)%bool; intros [= <-]; simpl; [|exact Hu].
    destruct (slice_0_m1_firstn (selectedCharacters st)) as [n ->].
    now apply UniqueIds_firstn. }
  destruct (String.eqb key "Tab"); intros [= <-]; exact Hu.
Qed.

Lemma settle_selection (reply : Reply) (st : State) :
  selectedCharacters (settle reply st) = selectedCharacters st.
Proof.
  destruct reply as [|[rs|]]; simpl; try reflexivity.
  now destruct (mapCharacters rs).
Qed.

Lemma step_unique (e : Event) (w w' : World) :
  UniqueIds (selectedCharacters (ui w)) ->
  step e w = Normal w' ->
  UniqueIds (selectedCharacters (ui w')).
Proof.
  intros Hu. destruct e; unfold step.
  - destruct (String.eqb _ _); [intros [= <-]; exact Hu|].
    unfold lookupEffect. destruct (gt _ _); intros [= <-]; exact Hu.
  - destruct (handleKeyDown key (ui w)) as [o|] eqn:E; [|discriminate].
    intros [= <-]. eapply handleKeyDown_unique; eassumption.
  - destruct (nth_error _ _); intros [= <-]; [|exact Hu].
    now apply removeCharacter_unique.
  - destruct (nth_error _ _) as [c|]; [|intros [= <-]; exact Hu].
    destruct (selectCharacter (Some c) (ui w)) as [st'|] eqn:E; [|discriminate].
    intros [= <-]. eapply selectCharacter_unique; eassumption.
  - destruct (nth_error _ _); intros [= <-]; exact Hu.
  - intros [= <-]. exact Hu.
  - destruct (nth_error _ _); intros [= <-]; [|exact Hu].
    cbn [ui]. now rewrite settle_selection.
Qed.

(** C9. Uniqueness by id is an invariant of the selection: from a selection
    with pairwise distinct ids, [selectCharacter], [removeCharacter] and the
    removal of the last entry by Backspace or Delete each return a selection
    with pairwise distinct ids, and so does every event of the component. *)
Theorem selection_unique_by_id_preserved (st : State) :
  UniqueIds (selectedCharacters st) ->
  (forall x, exists st',
      selectCharacter (Some x) st = Normal st'
      /\ UniqueIds (selectedCharacters st'))
  /\ (forall i, UniqueIds (selectedCharacters (removeCharacter i st)))
  /\ (forall key, key = "Backspace"%string \/ key = "Delete"%string ->
        exists o, handleKeyDown key st = Normal o
                  /\ UniqueIds (selectedCharacters (next o)))
  /\ (forall e w w', ui w = st -> step e w = Normal w' ->
        UniqueIds (selectedCharacters (ui w'))).
Proof.
  intros Hu. repeat split.
  - intros x.
    destruct (selectCharacter (Some x) st) as [st'|err] eqn:E.
    + exists st'. split; [reflexivity|].
      eapply selectCharacter_unique; eassumption.
    + exfalso. unfold selectCharacter in E.
      destruct (isCharacterSelected _ _); discriminate E.
  - intros i. now apply removeCharacter_unique.
  - intros key Hkey.
    destruct (handleKeyDown key st) as [o|err] eqn:E.
    + exists o. split; [reflexivity|].
      eapply handleKeyDown_unique; eassumption.
    + exfalso. rewrite (handleKeyDown_delete_keys key st Hkey) in E.
      destruct (_ && _)%bool; discriminate E.
  - intros e w w' <- Hstep. eapply step_unique; eassumption.
Qed.

Lemma selection_unique_by_id_preserved_witness :
  UniqueIds [rick; morty]
  /\ (exists st',
        selectCharacter (Some summer)
          (setSelectedCharacters [rick; morty] initialState) = Normal st'
        /\ UniqueIds (selectedCharacters st'))
  /\ UniqueIds
       (selectedCharacters
          (removeCharacter 1 (setSelectedCharacters [rick; morty] initialState))).
Proof.
  assert (Hu : UniqueIds [rick; morty]).
  { unfold UniqueIds. simpl. constructor.
    - intros [H|[]]; discriminate H.
    - constructor; [intros []|constructor]. }
  pose proof (selection_unique_by_id_preserved
                (setSelectedCharacters [rick; morty] initialState) Hu)
    as (Hsel & Hrem & _).
  split; [exact Hu|]. split; [apply Hsel|apply Hrem].
Defined.

(** Every selection the component can reach has pairwise distinct ids. *)
Corollary reachable_selection_unique (w : World) :
  Reachable w -> UniqueIds (selectedCharacters (ui w)).
Proof.
  intros (es & Hrun).
  assert (Hgen : forall w0, UniqueIds (selectedCharacters (ui w0)) ->
                 run es w0 = Normal w ->
                 UniqueIds (selectedCharacters (ui w))).
  { clear Hrun. induction es as [|e es IH]; simpl; intros w0 Hu Hrun.
    - injection Hrun as <-. exact Hu.
    - destruct (step e w0) as [w1|] eqn:E; simpl in Hrun; [|discriminate].
      apply (IH w1); [|exact Hrun]. eapply step_unique; eassumption. }
  apply (Hgen mount); [constructor|exact Hrun].
Qed.

(** *** Arrow keys *)

Lemma handleKeyDown_ArrowDown (st : State) :
  handleKeyDown "ArrowDown" st
  = Normal (mkKeyOutcome
      (setHoveredIndex
         match hoveredIndex st with
         | Some prevIndex =>
             Some (rem (add prevIndex (Fin 1)) (Js.length (searchResults st)))
         | None => Some (Fin 0)
         end
         (setHighlightedIndex
            (rem (add (highlightedIndex st) (Fin 1))
               (Js.length (searchResults st))) st))
      false).
Proof. reflexivity. Qed.

Lemma handleKeyDown_ArrowUp (st : State) :
  handleKeyDown "ArrowUp" st
  = Normal (mkKeyOutcome
      (setHoveredIndex
         match hoveredIndex st with
         | Some prevIndex =>
             Some (rem (add (sub prevIndex (Fin 1))
                          (Js.length (searchResults st)))
                     (Js.length (searchResults st)))
         | None => Some (sub (Js.length (searchResults st)) (Fin 1))
         end
         (setHighlightedIndex
            (rem (add (sub (highlightedIndex st) (Fin 1))
                    (Js.length (searchResults st)))
               (Js.length (searchResults st))) st))
      false).
Proof. reflexivity. Qed.

Section Wrapping.

Variables (n i : Z).
Hypothesis (Hrange : 0 <= i < n).

Lemma rem_wrap_down_up : Z.rem (Z.rem (i + 1) n - 1 + n) n = i.
Proof.
  rewrite (Z.rem_mod_nonneg (i + 1) n) by lia.
  destruct (Z.eq_dec (i + 1) n) as [E|E].
  - rewrite E, Z_mod_same_full.
    rewrite Z.rem_mod_nonneg by lia. rewrite Z.mod_small by lia. lia.
  - rewrite (Z.mod_small (i + 1) n) by lia.
    rewrite Z.rem_mod_nonneg by lia.
    replace (i + 1 - 1 + n) with (i + 1 * n) by lia.
    rewrite Z_mod_plus_full. apply Z.mod_small. lia.
Qed.

Lemma rem_wrap_up_down : Z.rem (Z.rem (i - 1 + n) n + 1) n = i.
Proof.
  rewrite (Z.rem_mod_nonneg (i - 1 + n) n) by lia.
  destruct (Z.eq_dec i 0) as [E|E].
  - rewrite E. rewrite (Z.mod_small (0 - 1 + n) n) by lia.
    replace (0 - 1 + n + 1) with n by lia.
    rewrite Z.rem_mod_nonneg by lia. apply Z_mod_same_full.
  - replace (i - 1 + n) with (i - 1 + 1 * n) by lia.
    rewrite Z_mod_plus_full, (Z.mod_small (i - 1) n) by lia.
    rewrite Z.rem_mod_nonneg by lia. rewrite Z.mod_small by lia. lia.
Qed.

End Wrapping.

Lemma staleIndex_reachable : Reachable (mkWorld staleIndexState []).
Proof. exists staleIndex. reflexivity. Qed.

(** C7, as stated, fails on an index left beyond the rows: with three rows
    and [highlightedIndex = 5] (a state the component reaches), ArrowDown
    then ArrowUp ends at 2, and so does ArrowUp then ArrowDown. *)
Lemma arrows_not_inverse_on_stale_index :
  Reachable (mkWorld staleIndexState [])
  /\ searchResults staleIndexState <> []
  /\ highlightedIndex staleIndexState = Fin 5
  /\ (exists st',
        pressKeys ["ArrowDown"; "ArrowUp"]%string staleIndexState = Normal st'
        /\ searchResults st' = searchResults staleIndexState
        /\ highlightedIndex st' = Fin 2
        /\ highlightedIndex st' <> highlightedIndex staleIndexState)
  /\ (exists st',
        pressKeys ["ArrowUp"; "ArrowDown"]%string staleIndexState = Normal st'
        /\ searchResults st' = searchResults staleIndexState
        /\ highlightedIndex st' = Fin 2
        /\ highlightedIndex st' <> highlightedIndex staleIndexState).
Proof.
  split; [apply staleIndex_reachable|].
  split; [discriminate|]. split; [reflexivity|].
  split; eexists; (split; [reflexivity|]); repeat split; discriminate.
Qed.

(** C7, amended. For every state whose [highlightedIndex] is a position of
    [searchResults] (an integer from 0 up to its length, exclusive),
    ArrowDown then ArrowUp, and ArrowUp then ArrowDown, leave
    [searchResults] as it is and return [highlightedIndex] to its value. *)
Theorem arrows_inverse_within_results (st : State) (i : Z) :
  highlightedIndex st = Fin i ->
  0 <= i < Z.of_nat (List.length (searchResults st)) ->
  (exists st',
      pressKeys ["ArrowDown"; "ArrowUp"]%string st = Normal st'
      /\ searchResults st' = searchResults st
      /\ highlightedIndex st' = Fin i)
  /\ (exists st',
        pressKeys ["ArrowUp"; "ArrowDown"]%string st = Normal st'
        /\ searchResults st' = searchResults st
        /\ highlightedIndex st' = Fin i).
Proof.
  intros Hi Hrange.
  assert (Hn : (Z.of_nat (List.length (searchResults st)) =? 0) = false)
    by (apply Z.eqb_neq; lia).
  split; eexists; (split; [reflexivity|]); (split; [reflexivity|]);
    cbn [pressKeys bind next]; simpl; rewrite Hi; simpl; rewrite Hn; simpl;
    rewrite Hn; f_equal.
  - now apply rem_wrap_down_up.
  - now apply rem_wrap_up_down.
Qed.

Lemma arrows_inverse_within_results_witness :
  exists st',
    pressKeys ["ArrowDown"; "ArrowUp"]%string
      (setHighlightedIndex (Fin 2) firstLookupState) = Normal st'
    /\ searchResults st' = map row [1; 2; 3]
    /\ highlightedIndex st' = Fin 2.
Proof.
  apply (proj1 (arrows_inverse_within_results
                  (setHighlightedIndex (Fin 2) firstLookupState) 2
                  eq_refl ltac:(simpl; lia))).
Defined.

(** The restriction cannot be relaxed: with rows present, an integer index
    that ArrowDown then ArrowUp return to its value is a position of
    [searchResults]. *)
Lemma arrows_inverse_only_within_results (st st' : State) (i : Z) :
  highlightedIndex st = Fin i ->
  searchResults st <> [] ->
  pressKeys ["ArrowDown"; "ArrowUp"]%string st = Normal st' ->
  highlightedIndex st' = Fin i ->
  0 <= i < Z.of_nat (List.length (searchResults st)).
Proof.
  intros Hi Hrows Hrun Hback.
  assert (Hpos : 0 < Z.of_nat (List.length (searchResults st))).
  { destruct (searchResults st); [contradiction|simpl; lia]. }
  assert (Hn : (Z.of_nat (List.length (searchResults st)) =? 0) = false)
    by (apply Z.eqb_neq; lia).
  cbn [pressKeys bind next] in Hrun. simpl in Hrun.
  rewrite Hi in Hrun. simpl in Hrun. rewrite Hn in Hrun. simpl in Hrun.
  rewrite Hn in Hrun. injection Hrun as <-. simpl in Hback.
  injection Hback as Hback.
  set (n := Z.of_nat (List.length (searchResults st))) in *.
  pose proof (Z.rem_bound_abs (i + 1) n ltac:(lia)) as Hr.
  pose proof (Z.rem_bound_pos (Z.rem (i + 1) n - 1 + n) n ltac:(lia) Hpos).
  lia.
Qed.

(** With no rows the remainder is taken by zero: either arrow key returns
    normally and leaves [highlightedIndex] at [NaN]. *)
Lemma arrows_on_no_results (key : string) (st : State) :
  key = "ArrowDown"%string \/ key = "ArrowUp"%string ->
  searchResults st = [] ->
  exists o, handleKeyDown key st = Normal o
            /\ highlightedIndex (next o) = NaN
            /\ hoveredIndex (next o) <> None.
Proof.
  intros [-> | ->] Hnone.
  - rewrite handleKeyDown_ArrowDown. eexists. split; [reflexivity|].
    rewrite Hnone. simpl. split.
    + now destruct (highlightedIndex st).
    + now destruct (hoveredIndex st).
  - rewrite handleKeyDown_ArrowUp. eexists. split; [reflexivity|].
    rewrite Hnone. simpl. split.
    + now destruct (highlightedIndex st).
    + now destruct (hoveredIndex st).
Qed.

(** [NaN] stays: no arrow key moves [highlightedIndex] off it, whatever the
    rows are. *)
Lemma arrows_keep_NaN (key : string) (st : State) :
  key = "ArrowDown"%string \/ key = "ArrowUp"%string ->
  highlightedIndex st = NaN ->
  exists o, handleKeyDown key st = Normal o /\ highlightedIndex (next o) = NaN.
Proof.
  intros [-> | ->] Hnan.
  - rewrite handleKeyDown_ArrowDown. eexists. split; [reflexivity|].
    simpl. now rewrite Hnan.
  - rewrite handleKeyDown_ArrowUp. eexists. split; [reflexivity|].
    simpl. now rewrite Hnan.
Qed.

(** C2. On the freshly mounted component, where there are no rows, ArrowDown
    and ArrowUp return normally, but neither leaves the indices alone:
    [highlightedIndex] goes from 0 to [NaN], and [hoveredIndex] from none to
    0 (down) or -1 (up). *)
Theorem arrows_on_mount_change_indices :
  searchResults initialState = []
  /\ highlightedIndex initialState = Fin 0
  /\ hoveredIndex initialState = None
  /\ handleKeyDown "ArrowDown" initialState
     = Normal (mkKeyOutcome
                 (mkState "" [] [] false false NaN None (Some (Fin 0))) false)
  /\ handleKeyDown "ArrowUp" initialState
     = Normal (mkKeyOutcome
                 (mkState "" [] [] false false NaN None (Some (Fin (-1)))) false).
Proof. repeat split. Qed.

(** *** Enter *)

Lemma handleKeyDown_Enter (st : State) :
  handleKeyDown "Enter" st
  = if gt (Js.length (searchResults st)) (Fin 0)
    then bind (selectCharacter
                 (get (searchResults st) (sub (highlightedIndex st) (Fin 1)))
                 st)
           (fun st' => Normal (mkKeyOutcome st' true))
    else Normal (mkKeyOutcome st false).
Proof. reflexivity. Qed.

(** From the second position on, Enter toggles the row before the
    highlighted one and suppresses the default action. *)
Lemma enter_toggles_previous_row (st : State) (i : Z) (character : Character) :
  highlightedIndex st = Fin i ->
  1 <= i ->
  nth_error (searchResults st) (Z.to_nat (i - 1)) = Some character ->
  exists st',
    selectCharacter (Some character) st = Normal st'
    /\ handleKeyDown "Enter" st = Normal (mkKeyOutcome st' true).
Proof.
  intros Hi Hpos Hrow. rewrite handleKeyDown_Enter, Hi.
  assert (Hlen : gt (Js.length (searchResults st)) (Fin 0) = true).
  { simpl. apply Z.ltb_lt. destruct (searchResults st) as [|c l].
    - now destruct (Z.to_nat (i - 1)).
    - simpl. lia. }
  rewrite Hlen. simpl.
  replace (i - 1 <? 0) with false by (symmetry; apply Z.ltb_ge; lia).
  rewrite Hrow.
  destruct (selectCharacter (Some character) st) as [st'|err] eqn:E.
  - exists st'. now split.
  - exfalso. unfold selectCharacter in E.
    destruct (isCharacterSelected _ _); discriminate E.
Qed.

(** Where the position before the highlighted one is no row, Enter throws
    before it changes the state or suppresses the default action. *)
Lemma enter_throws_off_rows (st : State) :
  searchResults st <> [] ->
  get (searchResults st) (sub (highlightedIndex st) (Fin 1)) = None ->
  handleKeyDown "Enter" st = Throw TypeError.
Proof.
  intros Hrows Hnone. rewrite handleKeyDown_Enter, Hnone.
  destruct (searchResults st); [contradiction|reflexivity].
Qed.

(** Once [highlightedIndex] is [NaN], Enter throws whatever rows there
    are. *)
Lemma enter_after_NaN_throws (st : State) :
  searchResults st <> [] ->
  highlightedIndex st = NaN ->
  handleKeyDown "Enter" st = Throw TypeError.
Proof.
  intros Hrows Hnan. apply enter_throws_off_rows; [assumption|].
  now rewrite Hnan.
Qed.

Lemma firstLookup_reachable : Reachable (mkWorld firstLookupState []).
Proof. exists firstLookup. reflexivity. Qed.

(** C3. Right after the first lookup has delivered three rows,
    [highlightedIndex] is still 0; the position Enter reads, -1, is no row,
    and the handler throws a [TypeError] without toggling anything and
    without suppressing the default action. *)
Theorem enter_on_first_row_throws :
  Reachable (mkWorld firstLookupState [])
  /\ searchResults firstLookupState = map row [1; 2; 3]
  /\ highlightedIndex firstLookupState = Fin 0
  /\ get (searchResults firstLookupState)
       (sub (highlightedIndex firstLookupState) (Fin 1)) = None
  /\ handleKeyDown "Enter" firstLookupState = Throw TypeError.
Proof.
  split; [apply firstLookup_reachable|]. repeat split.
Qed.

(** *** Highlighting *)

Section Strings.

Implicit Types (s rest : string) (c d : ascii).

Lemma length_take_drop n s :
  String.length (take n s) = Nat.min n (String.length s)
  /\ String.length (drop n s) = (String.length s - n)%nat.
Proof.
  revert s. induction n as [|n IH]; intros [|c r]; simpl; try (split; lia).
  destruct (IH r). split; lia.
Qed.

Lemma length_drop n s : String.length (drop n s) = (String.length s - n)%nat.
Proof. apply length_take_drop. Qed.

Lemma length_take n s :
  (n <= String.length s)%nat -> String.length (take n s) = n.
Proof. intros H. rewrite (proj1 (length_take_drop n s)). lia. Qed.

Lemma take_drop n s : (take n s ++ drop n s)%string = s.
Proof.
  revert s. induction n as [|n IH]; intros [|c r]; simpl; try reflexivity.
  now rewrite IH.
Qed.

Lemma take_all n s : (String.length s <= n)%nat -> take n s = s.
Proof.
  revert s. induction n as [|n IH]; intros [|c r]; simpl; intros H;
    try reflexivity; try lia.
  rewrite IH; [reflexivity|lia].
Qed.

Lemma drop_all n s : (String.length s <= n)%nat -> drop n s = EmptyString.
Proof.
  revert s. induction n as [|n IH]; intros [|c r]; simpl; intros H;
    try reflexivity; try lia.
  apply IH. lia.
Qed.

Lemma drop_drop m n s : drop n (drop m s) = drop (m + n) s.
Proof.
  revert s. induction m as [|m IH]; intros s; simpl; [reflexivity|].
  destruct s as [|c r]; [|apply IH].
  now destruct n.
Qed.

Lemma drop_slice p q s :
  (p <= q)%nat -> drop p s = (slice s p q ++ drop q s)%string.
Proof.
  intros Hpq. unfold slice.
  replace (drop q s) with (drop (q - p) (drop p s)).
  - symmetry. apply take_drop.
  - rewrite drop_drop. f_equal. lia.
Qed.

Lemma slice_to_end p s : slice s p (String.length s) = drop p s.
Proof. unfold slice. apply take_all. rewrite length_drop. lia. Qed.

Lemma length_append s1 s2 :
  String.length (s1 ++ s2)%string = (String.length s1 + String.length s2)%nat.
Proof. induction s1 as [|c r IH]; simpl; [reflexivity|now rewrite IH]. Qed.

Lemma append_assoc s1 s2 s3 :
  ((s1 ++ s2) ++ s3)%string = (s1 ++ (s2 ++ s3))%string.
Proof. induction s1 as [|c r IH]; simpl; [reflexivity|now rewrite IH]. Qed.

(** Letters compare alike under either case mapping. *)
Lemma lower_upper c : lowerChar (upperChar c) = lowerChar c.
Proof. destruct c as [[] [] [] [] [] [] [] []]; reflexivity. Qed.

Lemma upper_lower c : upperChar (lowerChar c) = upperChar c.
Proof. destruct c as [[] [] [] [] [] [] [] []]; reflexivity. Qed.

Lemma eqb_upper_lower c d :
  Ascii.eqb (upperChar c) (upperChar d) = Ascii.eqb (lowerChar c) (lowerChar d).
Proof.
  destruct (Ascii.eqb_spec (upperChar c) (upperChar d)) as [E|E];
    destruct (Ascii.eqb_spec (lowerChar c) (lowerChar d)) as [F|F];
    try reflexivity; exfalso.
  - apply F. now rewrite <- (lower_upper c), E, lower_upper.
  - apply E. now rewrite <- (upper_lower c), F, upper_lower.
Qed.

Lemma startsWithCI_spec (q : string) s :
  startsWithCI q s = true <->
  (String.length q <= String.length s)%nat
  /\ toLowerCase (take (String.length q) s) = toLowerCase q.
Proof.
  revert s. induction q as [|c q IH]; intros [|d s]; simpl.
  - split; [split; [lia|reflexivity]|reflexivity].
  - split; [split; [lia|reflexivity]|reflexivity].
  - split; [discriminate|]. intros [H _]. lia.
  - rewrite andb_true_iff, IH. split.
    + intros [Hc [Hlen Hlow]]. apply Ascii.eqb_eq in Hc.
      split; [lia|]. now rewrite Hlow, Hc.
    + intros [Hlen Hlow]. injection Hlow as Hc Hlow.
      split; [|split; [lia|assumption]].
      apply Ascii.eqb_eq. now symmetry.
Qed.

Lemma length_toLowerCase s : String.length (toLowerCase s) = String.length s.
Proof. induction s as [|c r IH]; simpl; [reflexivity|now rewrite IH]. Qed.

Lemma take_append_length s1 s2 : take (String.length s1) (s1 ++ s2) = s1.
Proof. induction s1 as [|c r IH]; simpl; [now destruct s2|now rewrite IH]. Qed.

Lemma drop_append_length s1 s2 : drop (String.length s1) (s1 ++ s2) = s2.
Proof. induction s1 as [|c r IH]; simpl; [reflexivity|assumption]. Qed.

(** A string that equals the query, letter case aside, begins with it. *)
Lemma startsWithCI_same (q : string) s rest :
  toLowerCase s = toLowerCase q -> startsWithCI q (s ++ rest) = true.
Proof.
  intros Hlow. apply startsWithCI_spec.
  assert (Hlen : String.length s = String.length q).
  { now rewrite <- (length_toLowerCase s), Hlow, length_toLowerCase. }
  rewrite length_append, <- Hlen, take_append_length.
  split; [lia|assumption].
Qed.

End Strings.

Section Patterns.

Implicit Types (s rest : string) (c d : ascii) (R body : list node).

(** A group matches what its terms match one after the other, and adds
    the matched text in front of their captures. *)
Lemma matchNode_Group body s :
  matchNode (Group body) s
  = match matchNodes body s with
    | None => None
    | Some (caps, r) =>
        Some (slice s 0 (String.length s - String.length r) :: caps, r)
    end.
Proof.
  simpl.
  match goal with
  | |- match ?f body s with _ => _ end = _ =>
      assert (Hfix : forall ns s', f ns s' = matchNodes ns s')
  end.
  { induction ns as [|n ns IH]; intros s'; simpl; [reflexivity|].
    destruct (matchNode n s') as [[caps1 r1]|]; [|reflexivity].
    now rewrite IH. }
  now rewrite Hfix.
Qed.

(** No match leaves more input than it was given. *)
Lemma matchNode_shorter (n : node) :
  forall s caps r,
    matchNode n s = Some (caps, r) ->
    (String.length r <= String.length s)%nat.
Proof.
  induction n as [c| |body IH] using
    (fix ind (P : node -> Prop)
         (HC : forall c, P (Char c)) (HD : P Dot)
         (HG : forall body, Forall P body -> P (Group body))
         (n : node) {struct n} : P n :=
       match n with
       | Char c => HC c
       | Dot => HD
       | Group body =>
           HG body
             ((fix all (ns : list node) : Forall P ns :=
                 match ns with
                 | [] => Forall_nil P
                 | n' :: ns' => Forall_cons n' (ind P HC HD HG n') (all ns')
                 end) body)
       end).
  - intros [|d s] caps r; simpl; [discriminate|].
    destruct (Ascii.eqb _ _); [|discriminate]. intros [= _ <-]. lia.
  - intros [|d s] caps r; simpl; [discriminate|].
    destruct (isLineTerminator d); [discriminate|]. intros [= _ <-]. lia.
  - intros s caps r. rewrite matchNode_Group.
    destruct (matchNodes body s) as [[caps' r']|] eqn:E; [|discriminate].
    intros [= _ <-]. revert s caps' E.
    induction IH as [|n ns Hn _ IHns]; intros s caps'; simpl.
    + intros [= _ <-]. lia.
    + destruct (matchNode n s) as [[caps1 r1]|] eqn:E1; [|discriminate].
      destruct (matchNodes ns r1) as [[caps2 r2]|] eqn:E2; [|discriminate].
      intros [= _ <-]. apply Hn in E1. apply IHns in E2. lia.
Qed.

Lemma matchNodes_shorter R s caps r :
  matchNodes R s = Some (caps, r) ->
  (String.length r <= String.length s)%nat.
Proof.
  revert s caps. induction R as [|n R IH]; intros s caps; simpl.
  - intros [= _ <-]. lia.
  - destruct (matchNode n s) as [[caps1 r1]|] eqn:E1; [|discriminate].
    destruct (matchNodes R r1) as [[caps2 r2]|] eqn:E2; [|discriminate].
    intros [= _ <-]. apply matchNode_shorter in E1. apply IH in E2. lia.
Qed.

(** The loop of [split] stops by itself: once [fuel] exceeds twice the
    input still ahead, more of it changes nothing. *)
Lemma splitLoop_fuel R s :
  forall fuel fuel' p q A,
    (p <= q)%nat ->
    (2 * (String.length s - q) + (if Nat.ltb p q then 1 else 0) < fuel)%nat ->
    (2 * (String.length s - q) + (if Nat.ltb p q then 1 else 0) < fuel')%nat ->
    splitLoop fuel R s p q A = splitLoop fuel' R s p q A.
Proof.
  induction fuel as [|fuel IH]; intros fuel' p q A Hpq Hf Hf'; [lia|].
  destruct fuel' as [|fuel']; [lia|].
  simpl.
  destruct (Nat.ltb_spec q (String.length s)) as [Hq|Hq]; [|reflexivity].
  assert (Hnext : forall A',
             splitLoop fuel R s p (q + 1) A' = splitLoop fuel' R s p (q + 1) A').
  { intros A'. apply IH; [lia| |];
      destruct (Nat.ltb_spec p q); destruct (Nat.ltb_spec p (q + 1)); lia. }
  destruct (matchNodes R (drop q s)) as [[caps r]|] eqn:E; [|apply Hnext].
  apply matchNodes_shorter in E. rewrite length_drop in E.
  destruct (Nat.eqb_spec (Nat.min (String.length s - String.length r)
                            (String.length s)) p) as [He|He]; [apply Hnext|].
  apply IH; [lia| |]; rewrite Nat.ltb_irrefl;
    destruct (Nat.ltb_spec p q); lia.
Qed.

(** The fuel [split] gives the loop is enough: any larger amount returns
    the same pieces. *)
Lemma split_fuel_enough R s fuel :
  (2 * String.length s + 1 <= fuel)%nat ->
  splitLoop fuel R s 0 0 [] = splitLoop (2 * String.length s + 1) R s 0 0 [].
Proof.
  intros Hf. apply splitLoop_fuel; simpl; lia.
Qed.

End Patterns.

Section PlainQuery.

Implicit Types (s rest text : string) (c d : ascii).

Lemma plain_char c :
  isSyntaxCharacter c = false ->
  Ascii.eqb c "(" = false /\ Ascii.eqb c ")" = false /\ Ascii.eqb c "." = false.
Proof.
  intros H. repeat split;
    match goal with
    | |- Ascii.eqb c ?x = false =>
        destruct (Ascii.eqb_spec c x) as [->|_]; [discriminate H|reflexivity]
    end.
Qed.

Lemma parseTerms_plain (q : string) rest cur outer :
  plainQuery q = true ->
  parseTerms (q ++ rest) cur outer
  = parseTerms rest (rev (map Char (list_ascii_of_string q)) ++ cur) outer.
Proof.
  revert cur. induction q as [|c q IH]; intros cur; simpl; [reflexivity|].
  rewrite andb_true_iff, negb_true_iff. intros [Hc Hq].
  destruct (plain_char c Hc) as (-> & -> & ->). rewrite Hc, (IH _ Hq).
  now rewrite <- app_assoc.
Qed.

(** A query without syntax characters compiles to one group of its
    characters. *)
Lemma RegExp_plain (q : string) :
  plainQuery q = true ->
  RegExp ("(" ++ q ++ ")") = Pattern [Group (map Char (list_ascii_of_string q))].
Proof.
  intros Hq. unfold RegExp. simpl.
  rewrite (parseTerms_plain q ")" [] [[]] Hq). simpl.
  now rewrite app_nil_r, rev_involutive.
Qed.

Lemma matchNodes_chars (q : string) s :
  matchNodes (map Char (list_ascii_of_string q)) s
  = if startsWithCI q s then Some ([], drop (String.length q) s) else None.
Proof.
  revert s. induction q as [|c q IH]; intros [|d s]; simpl; try reflexivity.
  rewrite eqb_upper_lower.
  destruct (Ascii.eqb (lowerChar c) (lowerChar d)); simpl; [|reflexivity].
  rewrite IH. now destruct (startsWithCI q s).
Qed.

(** That group matches where the input begins with the query, letter case
    aside, and captures the stretch it matched. *)
Lemma matchNodes_plain (q : string) s :
  matchNodes [Group (map Char (list_ascii_of_string q))] s
  = if startsWithCI q s
    then Some ([take (String.length q) s], drop (String.length q) s)
    else None.
Proof.
  cbn [matchNodes]. rewrite matchNode_Group, matchNodes_chars.
  destruct (startsWithCI q s) eqn:E; [|reflexivity].
  apply startsWithCI_spec in E. destruct E as [Hlen _].
  unfold slice. rewrite length_drop. simpl.
  replace (String.length s - (String.length s - String.length q) - 0)%nat
    with (String.length q) by lia.
  reflexivity.
Qed.

Variable q : string.
Hypothesis q_not_empty : q <> EmptyString.

Lemma startsWithCI_nil : startsWithCI q EmptyString = false.
Proof. destruct q; [contradiction|reflexivity]. Qed.

Lemma not_start_not_same text rest :
  startsWithCI q (text ++ rest) = false ->
  String.eqb (toLowerCase text) (toLowerCase q) = false.
Proof.
  intros H. apply String.eqb_neq. intros Hsame.
  now rewrite (startsWithCI_same q text rest Hsame) in H.
Qed.

Lemma append_nil_r s : (s ++ "")%string = s.
Proof. induction s as [|c r IH]; simpl; [reflexivity|now rewrite IH]. Qed.

Lemma start_same_take s :
  startsWithCI q s = true ->
  String.eqb (toLowerCase (take (String.length q) s)) (toLowerCase q) = true
  /\ startsWithCI q (take (String.length q) s) = true
  /\ String.length (take (String.length q) s) = String.length q.
Proof.
  intros H. apply startsWithCI_spec in H. destruct H as [Hlen Hlow].
  split; [now apply String.eqb_eq|]. split.
  - rewrite <- (append_nil_r (take _ s)). now apply startsWithCI_same.
  - now apply length_take.
Qed.

(** The loop on a plain query: from a piece that starts at [p] and has no
    occurrence before [k], the pieces still to come highlight the rest. *)
Lemma splitLoop_plain s :
  forall fuel p k A,
    (p <= k <= String.length s)%nat ->
    (String.length s - k < fuel)%nat ->
    (forall j, (p <= j < k)%nat -> startsWithCI q (drop j s) = false) ->
    exists parts,
      splitLoop fuel [Group (map Char (list_ascii_of_string q))] s p k A
      = A ++ parts
      /\ Highlighted q (drop p s)
           (map (fun part =>
                   mkSpan (String.eqb (toLowerCase part) (toLowerCase q)) part)
              parts).
Proof.
  induction fuel as [|fuel IH]; intros p k A Hpk Hfuel Hnone; [lia|].
  cbn [splitLoop].
  destruct (Nat.ltb_spec k (String.length s)) as [Hk|Hk].
  - rewrite matchNodes_plain.
    destruct (startsWithCI q (drop k s)) eqn:Hocc.
    + (* an occurrence at [k] *)
      pose proof Hocc as Hlen. apply startsWithCI_spec in Hlen.
      destruct Hlen as [Hlen _]. rewrite length_drop in Hlen.
      assert (Hq : (0 < String.length q)%nat).
      { destruct q; [contradiction|simpl; lia]. }
      rewrite drop_drop, length_drop.
      replace (Nat.min (String.length s - (String.length s - (k + String.length q)))
                 (String.length s)) with (k + String.length q)%nat by lia.
      destruct (Nat.eqb_spec (k + String.length q) p) as [E|_]; [lia|].
      destruct (IH (k + String.length q)%nat (k + String.length q)%nat
                  (A ++ [slice s p k; take (String.length q) (drop k s)]))
        as (parts & Hrun & Hrest); [lia|lia|intros j Hj; lia|].
      exists (slice s p k :: take (String.length q) (drop k s) :: parts).
      split; [rewrite Hrun, <- app_assoc; reflexivity|].
      destruct (start_same_take _ Hocc) as (Hbold & Hstart & Htake).
      cbn [map]. rewrite Hbold.
      assert (Htext : drop p s
                      = (slice s p k ++ take (String.length q) (drop k s)
                         ++ drop (k + String.length q) s)%string).
      { rewrite <- drop_drop, take_drop. apply drop_slice. lia. }
      assert (Hplain : String.eqb (toLowerCase (slice s p k)) (toLowerCase q)
                       = false).
      { destruct (Nat.eq_dec p k) as [->|Hne].
        - unfold slice. rewrite Nat.sub_diag.
          change (take 0 (drop k s)) with EmptyString.
          apply (not_start_not_same "" ""), startsWithCI_nil.
        - apply (not_start_not_same _
                   (take (String.length q) (drop k s)
                    ++ drop (k + String.length q) s)%string).
          rewrite <- Htext. apply Hnone. lia. }
      rewrite Hplain, Htext.
      apply highlighted_occurrence; try assumption.
      intros j Hj. rewrite <- Htext, drop_drop. apply Hnone.
      unfold slice in Hj. rewrite length_take in Hj; [lia|].
      rewrite length_drop. lia.
    + (* no occurrence at [k] *)
      apply IH; [lia|lia|].
      intros j Hj. destruct (Nat.eq_dec j k) as [->|Hne]; [assumption|].
      apply Hnone. lia.
  - (* the end of the input *)
    assert (k = String.length s) as -> by lia.
    exists [slice s p (String.length s)]. split; [reflexivity|].
    rewrite slice_to_end. cbn [map].
    assert (Hall : forall j, startsWithCI q (drop j (drop p s)) = false).
    { intros j. rewrite drop_drop.
      destruct (Nat.lt_ge_cases (p + j) (String.length s)) as [Hin|Hout].
      - apply Hnone. lia.
      - rewrite drop_all by lia. apply startsWithCI_nil. }
    rewrite (not_start_not_same (drop p s) "").
    + now apply highlighted_rest.
    + rewrite append_nil_r. apply (Hall 0%nat).
Qed.

(** For every text and every non-empty query without syntax characters,
    [highlightText] returns normally and its spans cut the text at the
    occurrences of the query, letter case aside: occurrences bold, the
    stretches between them plain. *)
Theorem highlightText_plain_query text :
  plainQuery q = true ->
  exists spans,
    highlightText text q = Some (Normal spans) /\ Highlighted q text spans.
Proof.
  intros Hplain. unfold highlightText. rewrite (RegExp_plain q Hplain).
  unfold split.
  destruct (Nat.eqb_spec (String.length text) 0) as [Hnil|Hlen].
  - destruct text; [|discriminate]. rewrite matchNodes_plain, startsWithCI_nil.
    eexists. split; [reflexivity|]. cbn [map].
    rewrite (not_start_not_same "" "") by apply startsWithCI_nil.
    apply highlighted_rest. intros k.
    rewrite drop_all by (simpl; lia). apply startsWithCI_nil.
  - destruct (splitLoop_plain text (2 * String.length text + 1) 0 0 [])
      as (parts & Hrun & Hhl); [lia|lia|intros j Hj; lia|].
    rewrite Hrun. eexists. split; [reflexivity|exact Hhl].
Qed.

End PlainQuery.

Section EmptyQuery.

Implicit Types (s rest text : string) (c d : ascii).

Lemma matchNodes_empty_group s :
  matchNodes [Group []] s = Some ([EmptyString], s).
Proof.
  cbn [matchNodes]. rewrite matchNode_Group. cbn [matchNodes app].
  unfold slice. now rewrite Nat.sub_diag.
Qed.

Lemma drop_cons p s c rest :
  drop p s = String c rest ->
  drop (p + 1) s = rest /\ slice s p (p + 1) = String c EmptyString.
Proof.
  intros H. split.
  - now rewrite <- drop_drop, H.
  - unfold slice. replace (p + 1 - p)%nat with 1%nat by lia. now rewrite H.
Qed.

(** The loop on the empty query: a piece per character, and an empty
    capture between two of them. *)
Lemma splitLoop_empty_query s :
  forall n fuel p A,
    (String.length s - p = n)%nat -> (p < String.length s)%nat ->
    (2 * n + 1 <= fuel)%nat ->
    splitLoop fuel [Group []] s p p A = A ++ emptyQueryParts (drop p s).
Proof.
  induction n as [|n IH]; intros fuel p A Hn Hp Hfuel; [lia|].
  destruct fuel as [|[|fuel]]; [lia|lia|].
  assert (Hlen : String.length (drop p s) = S n) by (rewrite length_drop; lia).
  destruct (drop p s) as [|c rest] eqn:Hdrop; [discriminate|].
  destruct (drop_cons p s c rest Hdrop) as [Hrest Hpiece].
  (* at [p]: an empty match where the piece starts; move on *)
  cbn [splitLoop].
  destruct (Nat.ltb_spec p (String.length s)) as [_|]; [|lia].
  rewrite matchNodes_empty_group, Hdrop.
  replace (Nat.min (String.length s - String.length (String c rest))
             (String.length s)) with p by (rewrite <- Hdrop, length_drop; lia).
  rewrite Nat.eqb_refl.
  (* at [p + 1]: the end of the input, or an empty match that cuts *)
  destruct (Nat.ltb_spec (p + 1) (String.length s)) as [Hmore|Hend].
  - rewrite matchNodes_empty_group, Hrest.
    replace (Nat.min (String.length s - String.length rest) (String.length s))
      with (p + 1)%nat by (simpl in Hlen; lia).
    destruct (Nat.eqb_spec (p + 1) p) as [|_]; [lia|].
    rewrite (IH fuel (p + 1)%nat) by lia.
    rewrite Hrest, Hpiece, <- app_assoc.
    destruct rest as [|d rest']; [simpl in Hlen; lia|reflexivity].
  - assert (p + 1 = String.length s)%nat as Hsize by lia.
    rewrite slice_to_end, Hdrop.
    destruct rest as [|d rest']; [reflexivity|simpl in Hlen; lia].
Qed.

(** Against the empty query every character of the text comes out as a
    plain span of its own, and the only bold spans are empty ones between
    them. *)
Theorem highlightText_empty_query text :
  highlightText text "" = Some (Normal (emptyQuerySpans text)).
Proof.
  unfold highlightText. change (RegExp ("(" ++ "" ++ ")")) with (Pattern [Group []]).
  unfold split, emptyQuerySpans.
  destruct (Nat.eqb_spec (String.length text) 0) as [Hnil|Hlen].
  - destruct text; [reflexivity|discriminate].
  - rewrite (splitLoop_empty_query text (String.length text)) by lia.
    reflexivity.
Qed.

Lemma concat_nil_cons s (l : list string) :
  String.concat "" (s :: l) = (s ++ String.concat "" l)%string.
Proof.
  destruct l as [|s' l]; simpl; [now rewrite append_nil_r|reflexivity].
Qed.

(** The plain spans of [emptyQuerySpans], put together, are the text, and
    its bold spans are empty. *)
Lemma emptyQuerySpans_plain_text text :
  String.concat ""
    (map content (filter (fun sp => negb (bold sp)) (emptyQuerySpans text)))
  = text
  /\ Forall (fun sp => bold sp = true -> content sp = EmptyString)
       (emptyQuerySpans text).
Proof.
  unfold emptyQuerySpans.
  induction text as [|c rest [IHtext IHbold]]; [split; [reflexivity|constructor]|].
  destruct rest as [|d rest'].
  - split; [reflexivity|]. repeat constructor. discriminate.
  - split.
    + change (emptyQueryParts (String c (String d rest')))
        with (String c "" :: "" :: emptyQueryParts (String d rest'))%string.
      cbn [map filter bold negb content toLowerCase String.eqb].
      now rewrite concat_nil_cons, IHtext.
    + change (emptyQueryParts (String c (String d rest')))
        with (String c "" :: "" :: emptyQueryParts (String d rest'))%string.
      cbn [map]. constructor; [discriminate|].
      constructor; [reflexivity|exact IHbold].
Qed.

End EmptyQuery.

(** C8. "Morty" against "or" gives "M", "or" in bold, "ty", and against the
    empty query no character is in bold; but a query is read as a pattern,
    not as text: against "." every character of "Morty" is a match and none
    is in bold, and against "(" the function throws a [SyntaxError]. *)
Theorem highlightText_reads_query_as_pattern :
  highlightText "Morty" "or"
  = Some (Normal [mkSpan false "M"; mkSpan true "or"; mkSpan false "ty"])
  /\ highlightText "Morty" ""
     = Some (Normal [mkSpan false "M"; mkSpan true ""; mkSpan false "o";
                     mkSpan true ""; mkSpan false "r"; mkSpan true "";
                     mkSpan false "t"; mkSpan true ""; mkSpan false "y"])
  /\ highlightText "Morty" "."
     = Some (Normal [mkSpan false ""; mkSpan false "M"; mkSpan false "";
                     mkSpan false "o"; mkSpan false ""; mkSpan false "r";
                     mkSpan false ""; mkSpan false "t"; mkSpan false "";
                     mkSpan false "y"; mkSpan false ""])
  /\ highlightText "Morty" "(" = Some (Throw SyntaxError).
Proof. repeat split. Qed.

(** ** Further properties of the handlers *)

(** *** The selection *)

Section SelectionMembership.

Implicit Types (sel : list Character) (i j : Z).

Lemma some_id_filter_other sel i j :
  j <> i ->
  existsb (fun character => id character =? j)
    (filter (fun c => negb (id c =? i)) sel)
  = existsb (fun character => id character =? j) sel.
Proof.
  intros Hne. induction sel as [|c sel IH]; simpl; [reflexivity|].
  destruct (Z.eqb_spec (id c) i) as [E|E]; simpl.
  - rewrite IH. destruct (Z.eqb_spec (id c) j); [congruence|reflexivity].
  - now rewrite IH.
Qed.

Lemma some_id_filter_same sel i :
  existsb (fun character => id character =? i)
    (filter (fun c => negb (id c =? i)) sel) = false.
Proof. apply some_id_false, filter_no_id. Qed.

Lemma some_id_snoc sel c j :
  existsb (fun character => id character =? j) (sel ++ [c])
  = existsb (fun character => id character =? j) sel || (id c =? j).
Proof. rewrite existsb_app. simpl. now rewrite orb_false_r. Qed.

Lemma filter_filter_same sel i :
  filter (fun c => negb (id c =? i)) (filter (fun c => negb (id c =? i)) sel)
  = filter (fun c => negb (id c =? i)) sel.
Proof. apply filter_absent, filter_no_id. Qed.

Lemma filter_filter_swap sel i j :
  filter (fun c => negb (id c =? i)) (filter (fun c => negb (id c =? j)) sel)
  = filter (fun c => negb (id c =? j)) (filter (fun c => negb (id c =? i)) sel).
Proof.
  induction sel as [|c sel IH]; simpl; [reflexivity|].
  destruct (id c =? j) eqn:Ej; destruct (id c =? i) eqn:Ei; simpl;
    rewrite ?Ej, ?Ei; simpl; now rewrite IH.
Qed.

Lemma filter_length_le sel (f : Character -> bool) :
  (List.length (filter f sel) <= List.length sel)%nat.
Proof.
  induction sel as [|c sel IH]; simpl; [lia|]. destruct (f c); simpl; lia.
Qed.

Lemma setSelectedCharacters_same (st : State) :
  setSelectedCharacters (selectedCharacters st) st = st.
Proof. now destruct st. Qed.

Lemma selected_set (v : list Character) (st : State) :
  selectedCharacters (setSelectedCharacters v st) = v.
Proof. reflexivity. Qed.

Lemma set_set (u v : list Character) (st : State) :
  setSelectedCharacters v (setSelectedCharacters u st)
  = setSelectedCharacters v st.
Proof. reflexivity. Qed.

Lemma selectCharacter_normal (st : State) (x : Character) :
  selectCharacter (Some x) st
  = Normal (setSelectedCharacters
              (if isCharacterSelected (id x) st
               then filter (fun c => negb (id c =? id x)) (selectedCharacters st)
               else selectedCharacters st ++ [x]) st).
Proof.
  unfold selectCharacter. now destruct (isCharacterSelected (id x) st).
Qed.

End SelectionMembership.

(** X1. After [removeCharacter i] no entry of the selection has id [i];
    whether any other id is selected is as before, the remaining entries
    keep their order, and the selection has not grown. *)
Theorem removeCharacter_removes_only_that_id (st : State) (i : Z) :
  isCharacterSelected i (removeCharacter i st) = false
  /\ (forall j, j <> i ->
        isCharacterSelected j (removeCharacter i st) = isCharacterSelected j st)
  /\ WithoutId i (selectedCharacters st)
       (selectedCharacters (removeCharacter i st))
  /\ (List.length (selectedCharacters (removeCharacter i st))
      <= List.length (selectedCharacters st))%nat.
Proof.
  unfold isCharacterSelected. simpl. repeat split.
  - apply some_id_filter_same.
  - intros j Hne. now apply some_id_filter_other.
  - apply filter_WithoutId.
  - apply filter_length_le.
Qed.

(** X2. [removeCharacter] of an id that is not selected changes nothing. *)
Theorem removeCharacter_absent_unchanged (st : State) (i : Z) :
  ~ In i (map id (selectedCharacters st)) ->
  removeCharacter i st = st.
Proof.
  intros Habsent. unfold removeCharacter.
  rewrite (filter_absent _ _ Habsent). apply setSelectedCharacters_same.
Qed.

Lemma removeCharacter_absent_unchanged_witness :
  removeCharacter 3 (setSelectedCharacters [rick; morty] firstLookupState)
  = setSelectedCharacters [rick; morty] firstLookupState.
Proof.
  apply removeCharacter_absent_unchanged. simpl.
  intros [H|[H|[]]]; discriminate H.
Defined.

(** X3. [removeCharacter] is idempotent, and two removals give the same
    state in either order. *)
Theorem removeCharacter_idempotent_commutes (st : State) (i j : Z) :
  removeCharacter i (removeCharacter i st) = removeCharacter i st
  /\ removeCharacter i (removeCharacter j st)
     = removeCharacter j (removeCharacter i st).
Proof.
  unfold removeCharacter. simpl. split.
  - now rewrite filter_filter_same.
  - now rewrite filter_filter_swap.
Qed.

(** X4. [selectCharacter x] returns normally and flips whether [x]'s id is
    selected; whether any other id is selected, and every cell other than
    the selection, stay as they were. *)
Theorem selectCharacter_flips_membership (st : State) (x : Character) :
  exists st',
    selectCharacter (Some x) st = Normal st'
    /\ isCharacterSelected (id x) st' = negb (isCharacterSelected (id x) st)
    /\ (forall j, j <> id x ->
          isCharacterSelected j st' = isCharacterSelected j st)
    /\ st' = setSelectedCharacters (selectedCharacters st') st.
Proof.
  rewrite selectCharacter_normal. eexists. split; [reflexivity|].
  unfold isCharacterSelected. simpl.
  destruct (existsb _ (selectedCharacters st)) eqn:E; repeat split.
  - apply some_id_filter_same.
  - intros j Hne. now apply some_id_filter_other.
  - rewrite some_id_snoc, E, Z.eqb_refl. reflexivity.
  - intros j Hne. rewrite some_id_snoc.
    destruct (Z.eqb_spec (id x) j); [congruence|apply orb_false_r].
Qed.

(** X5. Toggling the same item twice returns normally and touches no cell
    but the selection.  When its id was not selected the state is restored;
    when it was, the selection afterwards is the former one without the
    entries of that id, the others in place, and with the item at the
    end. *)
Theorem selectCharacter_twice (st : State) (x : Character) :
  exists st',
    bind (selectCharacter (Some x) st) (selectCharacter (Some x)) = Normal st'
    /\ OtherCellsKept st st'
    /\ (~ In (id x) (map id (selectedCharacters st)) -> st' = st)
    /\ (In (id x) (map id (selectedCharacters st)) ->
        exists sel',
          WithoutId (id x) (selectedCharacters st) sel'
          /\ selectedCharacters st' = sel' ++ [x]).
Proof.
  rewrite selectCharacter_normal. cbn [bind].
  rewrite selectCharacter_normal. unfold isCharacterSelected.
  rewrite selected_set, set_set.
  eexists. split; [reflexivity|]. split; [repeat split|].
  rewrite selected_set. split; intros H.
  - pose proof H as Hb. apply some_id_false in Hb. rewrite Hb.
    rewrite some_id_snoc, Z.eqb_refl, orb_true_r.
    rewrite filter_app. cbn [filter]. rewrite Z.eqb_refl. cbn [negb].
    rewrite app_nil_r, (filter_absent _ _ H).
    apply setSelectedCharacters_same.
  - pose proof H as Hb. apply some_id_spec in Hb. rewrite Hb.
    rewrite some_id_filter_same.
    eexists. split; [apply filter_WithoutId|reflexivity].
Qed.

Lemma selectCharacter_twice_witness :
  (exists st',
      bind (selectCharacter (Some summer)
              (setSelectedCharacters [rick; morty] initialState))
        (selectCharacter (Some summer)) = Normal st'
      /\ st' = setSelectedCharacters [rick; morty] initialState)
  /\ (exists st' sel',
        bind (selectCharacter (Some rick)
                (setSelectedCharacters [rick; morty] initialState))
          (selectCharacter (Some rick)) = Normal st'
        /\ WithoutId 1 [rick; morty] sel'
        /\ selectedCharacters st' = sel' ++ [rick]).
Proof.
  pose (st := setSelectedCharacters [rick; morty] initialState).
  split.
  - destruct (selectCharacter_twice st summer) as (st' & Hrun & _ & Habsent & _).
    exists st'. split; [exact Hrun|].
    apply Habsent. simpl. intros [H|[H|[]]]; discriminate H.
  - destruct (selectCharacter_twice st rick) as (st' & Hrun & _ & _ & Hpresent).
    destruct Hpresent as (sel' & Hwithout & Hsel); [simpl; now left|].
    exists st', sel'. split; [exact Hrun|]. split; [exact Hwithout|exact Hsel].
Defined.

(** X6. Toggling the same item three times gives the state one toggle
    gives. *)
Theorem selectCharacter_thrice (st : State) (x : Character) :
  bind (bind (selectCharacter (Some x) st) (selectCharacter (Some x)))
    (selectCharacter (Some x))
  = selectCharacter (Some x) st.
Proof.
  rewrite (selectCharacter_normal st). cbn [bind].
  rewrite selectCharacter_normal. cbn [bind].
  rewrite selectCharacter_normal. unfold isCharacterSelected.
  rewrite !selected_set, !set_set.
  destruct (existsb _ (selectedCharacters st)) eqn:E.
  - rewrite some_id_filter_same. cbv iota.
    rewrite some_id_snoc, Z.eqb_refl, orb_true_r.
    rewrite filter_app. cbn [filter]. rewrite Z.eqb_refl. cbn [negb].
    now rewrite app_nil_r, filter_filter_same.
  - rewrite some_id_snoc, Z.eqb_refl, orb_true_r.
    rewrite filter_app. cbn [filter]. rewrite Z.eqb_refl. cbn [negb].
    rewrite app_nil_r.
    apply some_id_false in E. rewrite (filter_absent _ _ E).
    apply some_id_false in E. now rewrite E.
Qed.

(** X7. On a selection with pairwise distinct ids and an empty query,
    Backspace (or Delete) does what [removeCharacter] does with the id of
    the last entry. *)
Theorem backspace_is_removeCharacter_of_last
    (key : string) (st : State) (front : list Character) (last : Character) :
  key = "Backspace"%string \/ key = "Delete"%string ->
  searchQuery st = ""%string ->
  selectedCharacters st = front ++ [last] ->
  UniqueIds (selectedCharacters st) ->
  handleKeyDown key st
  = Normal (mkKeyOutcome (removeCharacter (id last) st) false).
Proof.
  intros Hkey Hq Hsel Hu.
  rewrite (handleKeyDown_delete_keys key st Hkey), Hq.
  unfold removeCharacter. rewrite Hsel, slice_0_m1_snoc.
  unfold UniqueIds in Hu. rewrite Hsel, map_app in Hu. simpl in Hu.
  apply NoDup_remove_2 in Hu. rewrite app_nil_r in Hu.
  rewrite (filter_single front last []) by (simpl; tauto).
  rewrite app_nil_r.
  unfold Js.length. rewrite length_app. simpl.
  replace (0 <? Z.of_nat (List.length front + 1)) with true; [reflexivity|].
  symmetry. apply Z.ltb_lt. lia.
Qed.

Lemma backspace_is_removeCharacter_of_last_witness :
  handleKeyDown "Backspace"
    (setSelectedCharacters [rick; morty; summer] initialState)
  = Normal (mkKeyOutcome
              (removeCharacter 3
                 (setSelectedCharacters [rick; morty; summer] initialState))
              false).
Proof.
  apply (backspace_is_removeCharacter_of_last "Backspace"
           (setSelectedCharacters [rick; morty; summer] initialState)
           [rick; morty] summer (or_introl eq_refl) eq_refl eq_refl).
  unfold UniqueIds. simpl.
  repeat constructor; simpl; intros H;
    repeat (destruct H as [H|H]; [discriminate H|]); exact H.
Defined.

(** *** The key handler *)

Lemma handleKeyDown_cases (key : string) (st : State) :
  key = "ArrowDown"%string \/ key = "ArrowUp"%string \/ key = "Enter"%string
  \/ (key = "Backspace"%string \/ key = "Delete"%string)
  \/ handleKeyDown key st = Normal (mkKeyOutcome st false).
Proof.
  destruct (String.eqb_spec key "ArrowDown") as [|H1]; [tauto|].
  destruct (String.eqb_spec key "ArrowUp") as [|H2]; [tauto|].
  destruct (String.eqb_spec key "Enter") as [|H3]; [tauto|].
  destruct (String.eqb_spec key "Backspace") as [|H4]; [tauto|].
  destruct (String.eqb_spec key "Delete") as [|H5]; [tauto|].
  do 4 right. unfold handleKeyDown.
  apply String.eqb_neq in H1, H2, H3, H4, H5.
  rewrite H1, H2, H3, H4, H5. simpl.
  now destruct (String.eqb key "Tab").
Qed.

Lemma selectCharacter_cells (character : option Character) (st st' : State) :
  selectCharacter character st = Normal st' ->
  st' = setSelectedCharacters (selectedCharacters st') st.
Proof.
  destruct character as [x|]; [|discriminate].
  rewrite selectCharacter_normal. now intros [= <-].
Qed.

(** X8. A key press that returns never changes the query, the results or
    the loading and error flags; it suppresses the default action only for
    Enter with rows, changes the selection only for Enter with rows or for
    Backspace or Delete on an empty query, and moves the indices only for
    the arrow keys. *)
Theorem handleKeyDown_touches_only (key : string) (st : State) (o : KeyOutcome) :
  handleKeyDown key st = Normal o ->
  (searchQuery (next o) = searchQuery st
   /\ searchResults (next o) = searchResults st
   /\ isLoading (next o) = isLoading st
   /\ isError (next o) = isError st
   /\ focusedSelectedIndex (next o) = focusedSelectedIndex st)
  /\ (defaultPrevented o = true ->
      key = "Enter"%string /\ searchResults st <> [])
  /\ (selectedCharacters (next o) <> selectedCharacters st ->
      (key = "Enter"%string /\ searchResults st <> [])
      \/ ((key = "Backspace"%string \/ key = "Delete"%string)
          /\ searchQuery st = ""%string /\ selectedCharacters st <> []))
  /\ (highlightedIndex (next o) <> highlightedIndex st
      \/ hoveredIndex (next o) <> hoveredIndex st ->
      key = "ArrowDown"%string \/ key = "ArrowUp"%string).
Proof.
  destruct (handleKeyDown_cases key st) as [->|[->|[->|[Hdel|Hother]]]].
  - rewrite handleKeyDown_ArrowDown. intros [= <-]. cbn.
    split; [tauto|]. split; [discriminate|]. split; [congruence|auto].
  - rewrite handleKeyDown_ArrowUp. intros [= <-]. cbn.
    split; [tauto|]. split; [discriminate|]. split; [congruence|auto].
  - rewrite handleKeyDown_Enter.
    destruct (searchResults st) as [|c rs] eqn:Hrows.
    + intros [= <-]. cbn.
      split; [tauto|]. split; [discriminate|]. split; [congruence|tauto].
    + cbn [gt Js.length].
      destruct (_ <? _); [|intros [= <-]; cbn;
        split; [tauto|]; split; [discriminate|]; split; [congruence|tauto]].
      destruct (selectCharacter _ st) as [st'|] eqn:E; [|discriminate].
      intros [= <-]. cbn [next defaultPrevented bind].
      apply selectCharacter_cells in E. rewrite E. cbn.
      rewrite Hrows.
      split; [tauto|]. split; [split; [reflexivity|discriminate]|].
      split; [intros _; left; split; [reflexivity|discriminate]|tauto].
  - rewrite (handleKeyDown_delete_keys key st Hdel).
    destruct (negb (truthy (searchQuery st))
              && gt (Js.length (selectedCharacters st)) (Fin 0)) eqn:Hgo;
      intros [= <-]; cbn.
    + apply andb_true_iff in Hgo. destruct Hgo as [Hq Hsel].
      split; [tauto|]. split; [discriminate|]. split; [|tauto].
      intros _. right. split; [assumption|]. split.
      * destruct (searchQuery st); [reflexivity|discriminate Hq].
      * destruct (selectedCharacters st); [discriminate Hsel|discriminate].
    + split; [tauto|]. split; [discriminate|]. split; [congruence|tauto].
  - rewrite Hother. intros [= <-]. cbn.
    split; [tauto|]. split; [discriminate|]. split; [congruence|tauto].
Qed.

Lemma handleKeyDown_touches_only_witness :
  searchResults (setSelectedCharacters [rick] firstLookupState)
  = searchResults (setSelectedCharacters [rick; morty] firstLookupState)
  /\ isError (setSelectedCharacters [rick] initialState)
     = isError (setSelectedCharacters [rick; morty] initialState).
Proof.
  split.
  - apply (handleKeyDown_touches_only "Enter"
             (setHighlightedIndex (Fin 2)
                (setSelectedCharacters [rick; morty] firstLookupState))
             (mkKeyOutcome
                (setHighlightedIndex (Fin 2)
                   (setSelectedCharacters
                      [rick] firstLookupState)) true)
             eq_refl).
  - apply (handleKeyDown_touches_only "Backspace"
             (setSelectedCharacters [rick; morty] initialState)
             (mkKeyOutcome (setSelectedCharacters [rick] initialState) false)
             eq_refl).
Defined.

(** X9. The key handler throws in one situation only: Enter, with rows
    present, when the position before [highlightedIndex] is not a row; what
    it throws is a [TypeError]. *)
Theorem handleKeyDown_throws_iff (key : string) (st : State) (e : error) :
  handleKeyDown key st = Throw e <->
  key = "Enter"%string /\ searchResults st <> []
  /\ get (searchResults st) (sub (highlightedIndex st) (Fin 1)) = None
  /\ e = TypeError.
Proof.
  split.
  - destruct (handleKeyDown_cases key st) as [->|[->|[->|[Hdel|Hother]]]].
    + rewrite handleKeyDown_ArrowDown. discriminate.
    + rewrite handleKeyDown_ArrowUp. discriminate.
    + rewrite handleKeyDown_Enter.
      destruct (searchResults st) as [|c rs] eqn:Hrows; [discriminate|].
      cbn [gt Js.length]. destruct (_ <? _); [|discriminate].
      destruct (get _ _) as [x|] eqn:Hget.
      * rewrite selectCharacter_normal. discriminate.
      * intros [= <-]. repeat split. discriminate.
    + rewrite (handleKeyDown_delete_keys key st Hdel).
      destruct (_ && _)%bool; discriminate.
    + rewrite Hother. discriminate.
  - intros (-> & Hrows & Hget & ->). now apply enter_throws_off_rows.
Qed.

(** *** Moving with the arrow keys *)

Section Arrows.

Variable st : State.

Let n : Z := Z.of_nat (List.length (searchResults st)).

Hypothesis rows_present : searchResults st <> [].

Lemma rows_positive : 0 < n.
Proof.
  unfold n. destruct (searchResults st); [contradiction|simpl; lia].
Qed.

Lemma rem_by_rows (a : Z) :
  rem (Fin a) (Js.length (searchResults st)) = Fin (Z.rem a n).
Proof.
  unfold rem, Js.length. fold n.
  pose proof rows_positive.
  now replace (n =? 0) with false by (symmetry; apply Z.eqb_neq; lia).
Qed.

Lemma arrowDown_index (i : Z) :
  highlightedIndex st = Fin i ->
  exists o, handleKeyDown "ArrowDown" st = Normal o
            /\ searchResults (next o) = searchResults st
            /\ highlightedIndex (next o) = Fin (Z.rem (i + 1) n).
Proof.
  intros Hi. rewrite handleKeyDown_ArrowDown. eexists.
  split; [reflexivity|]. split; [reflexivity|].
  cbn [next highlightedIndex setHoveredIndex setHighlightedIndex].
  rewrite Hi. apply rem_by_rows.
Qed.

Lemma arrowUp_index (i : Z) :
  highlightedIndex st = Fin i ->
  exists o, handleKeyDown "ArrowUp" st = Normal o
            /\ searchResults (next o) = searchResults st
            /\ highlightedIndex (next o) = Fin (Z.rem (i - 1 + n) n).
Proof.
  intros Hi. rewrite handleKeyDown_ArrowUp. eexists.
  split; [reflexivity|]. split; [reflexivity|].
  cbn [next highlightedIndex setHoveredIndex setHighlightedIndex].
  rewrite Hi. cbn [sub add Js.length]. fold n. apply rem_by_rows.
Qed.

Lemma arrowDown_hovered :
  exists o, handleKeyDown "ArrowDown" st = Normal o
            /\ hoveredIndex (next o)
               = match hoveredIndex st with
                 | Some (Fin j) => Some (Fin (Z.rem (j + 1) n))
                 | Some NaN => Some NaN
                 | None => Some (Fin 0)
                 end.
Proof.
  rewrite handleKeyDown_ArrowDown. eexists. split; [reflexivity|].
  cbn [next hoveredIndex setHoveredIndex setHighlightedIndex].
  destruct (hoveredIndex st) as [[j|]|]; try reflexivity.
  cbn [add]. now rewrite rem_by_rows.
Qed.

Lemma arrowUp_hovered :
  exists o, handleKeyDown "ArrowUp" st = Normal o
            /\ hoveredIndex (next o)
               = match hoveredIndex st with
                 | Some (Fin j) => Some (Fin (Z.rem (j - 1 + n) n))
                 | Some NaN => Some NaN
                 | None => Some (Fin (n - 1))
                 end.
Proof.
  rewrite handleKeyDown_ArrowUp. eexists. split; [reflexivity|].
  cbn [next hoveredIndex setHoveredIndex setHighlightedIndex].
  destruct (hoveredIndex st) as [[j|]|]; try reflexivity.
  cbn [sub add Js.length]. fold n. now rewrite rem_by_rows.
Qed.

End Arrows.

(** X10. With rows present, an arrow key brings a stale index back among
    the rows: from any non-negative [highlightedIndex], and from a
    [hoveredIndex] that is none or non-negative, both indices end as
    positions of [searchResults]. *)
Theorem arrows_bring_indices_among_rows (key : string) (st : State) (i : Z) :
  key = "ArrowDown"%string \/ key = "ArrowUp"%string ->
  searchResults st <> [] ->
  highlightedIndex st = Fin i -> 0 <= i ->
  (hoveredIndex st = None
   \/ exists j, hoveredIndex st = Some (Fin j) /\ 0 <= j) ->
  exists o i' j',
    handleKeyDown key st = Normal o
    /\ highlightedIndex (next o) = Fin i'
    /\ 0 <= i' < Z.of_nat (List.length (searchResults st))
    /\ hoveredIndex (next o) = Some (Fin j')
    /\ 0 <= j' < Z.of_nat (List.length (searchResults st)).
Proof.
  intros Hkey Hrows Hi Hpos Hhov.
  pose proof (rows_positive st Hrows) as Hn.
  destruct Hkey as [-> | ->].
  - destruct (arrowDown_index st Hrows i Hi) as (o & Hrun & _ & Hidx).
    destruct (arrowDown_hovered st Hrows) as (o' & Hrun' & Hhov').
    rewrite Hrun in Hrun'. injection Hrun' as <-.
    destruct Hhov as [Hnone|(j & Hj & Hjpos)]; rewrite ?Hnone, ?Hj in Hhov';
      do 3 eexists; (split; [exact Hrun|]); (split; [exact Hidx|]);
      (split; [apply Z.rem_bound_pos; lia|]); (split; [exact Hhov'|]);
      [lia|apply Z.rem_bound_pos; lia].
  - destruct (arrowUp_index st Hrows i Hi) as (o & Hrun & _ & Hidx).
    destruct (arrowUp_hovered st Hrows) as (o' & Hrun' & Hhov').
    rewrite Hrun in Hrun'. injection Hrun' as <-.
    destruct Hhov as [Hnone|(j & Hj & Hjpos)]; rewrite ?Hnone, ?Hj in Hhov';
      do 3 eexists; (split; [exact Hrun|]); (split; [exact Hidx|]);
      (split; [apply Z.rem_bound_pos; lia|]); (split; [exact Hhov'|]);
      [lia|apply Z.rem_bound_pos; lia].
Qed.

Lemma arrows_bring_indices_among_rows_witness :
  exists o i' j',
    handleKeyDown "ArrowUp" staleIndexState = Normal o
    /\ highlightedIndex (next o) = Fin i'
    /\ 0 <= i' < 3
    /\ hoveredIndex (next o) = Some (Fin j')
    /\ 0 <= j' < 3.
Proof.
  apply (arrows_bring_indices_among_rows "ArrowUp" staleIndexState 5);
    [now right|discriminate|reflexivity|lia|].
  right. exists 4. split; [reflexivity|lia].
Defined.

Section OneRow.

Variables (n i : Z).
Hypothesis (Hrange : 0 <= i < n).

Lemma rem_next : Z.rem (i + 1) n = if i + 1 =? n then 0 else i + 1.
Proof.
  rewrite Z.rem_mod_nonneg by lia.
  destruct (Z.eqb_spec (i + 1) n) as [->|Hne].
  - apply Z_mod_same_full.
  - apply Z.mod_small. lia.
Qed.

Lemma rem_previous : Z.rem (i - 1 + n) n = if i =? 0 then n - 1 else i - 1.
Proof.
  rewrite Z.rem_mod_nonneg by lia.
  destruct (Z.eqb_spec i 0) as [->|Hne].
  - rewrite Z.mod_small by lia. lia.
  - replace (i - 1 + n) with (i - 1 + 1 * n) by lia.
    rewrite Z_mod_plus_full. apply Z.mod_small. lia.
Qed.

End OneRow.

(** X11. From a [highlightedIndex] that is a position of [searchResults],
    ArrowDown moves to the next position and from the last one to 0;
    ArrowUp moves to the previous position and from 0 to the last one. *)
Theorem arrow_moves_one_row (st : State) (i : Z) :
  highlightedIndex st = Fin i ->
  0 <= i < Z.of_nat (List.length (searchResults st)) ->
  (exists o,
      handleKeyDown "ArrowDown" st = Normal o
      /\ highlightedIndex (next o)
         = Fin (if i + 1 =? Z.of_nat (List.length (searchResults st))
                then 0 else i + 1))
  /\ (exists o,
        handleKeyDown "ArrowUp" st = Normal o
        /\ highlightedIndex (next o)
           = Fin (if i =? 0
                  then Z.of_nat (List.length (searchResults st)) - 1
                  else i - 1)).
Proof.
  intros Hi Hrange.
  assert (Hrows : searchResults st <> []).
  { intros E. rewrite E in Hrange. simpl in Hrange. lia. }
  split.
  - destruct (arrowDown_index st Hrows i Hi) as (o & Hrun & _ & Hidx).
    exists o. split; [exact Hrun|]. now rewrite Hidx, rem_next.
  - destruct (arrowUp_index st Hrows i Hi) as (o & Hrun & _ & Hidx).
    exists o. split; [exact Hrun|]. now rewrite Hidx, rem_previous.
Qed.

Lemma arrow_moves_one_row_witness :
  (exists o,
      handleKeyDown "ArrowDown" (setHighlightedIndex (Fin 2) firstLookupState)
      = Normal o
      /\ highlightedIndex (next o) = Fin 0)
  /\ (exists o,
        handleKeyDown "ArrowUp" (setHighlightedIndex (Fin 2) firstLookupState)
        = Normal o
        /\ highlightedIndex (next o) = Fin 1).
Proof.
  apply (arrow_moves_one_row (setHighlightedIndex (Fin 2) firstLookupState) 2
           eq_refl).
  simpl. lia.
Defined.

Lemma pressKeys_app (keys keys' : list string) (st : State) :
  pressKeys (keys ++ keys') st = bind (pressKeys keys st) (pressKeys keys').
Proof.
  revert st. induction keys as [|key keys IH]; intros st; simpl; [reflexivity|].
  destruct (handleKeyDown key st) as [o|e]; simpl; [apply IH|reflexivity].
Qed.

(** Repeated arrow keys count modulo the number of rows. *)
Lemma arrowDown_repeat (k : nat) :
  forall (st : State) (i : Z),
    highlightedIndex st = Fin i ->
    0 <= i < Z.of_nat (List.length (searchResults st)) ->
    exists st',
      pressKeys (repeat "ArrowDown"%string k) st = Normal st'
      /\ searchResults st' = searchResults st
      /\ highlightedIndex st'
         = Fin ((i + Z.of_nat k) mod Z.of_nat (List.length (searchResults st))).
Proof.
  induction k as [|k IH]; intros st i Hi Hrange.
  - exists st. split; [reflexivity|]. split; [reflexivity|].
    rewrite Hi, Z.add_0_r, Z.mod_small by lia. reflexivity.
  - assert (Hrows : searchResults st <> []).
    { intros E. rewrite E in Hrange. simpl in Hrange. lia. }
    destruct (arrowDown_index st Hrows i Hi) as (o & Hrun & Hsame & Hidx).
    rewrite Z.rem_mod_nonneg in Hidx by lia.
    destruct (IH (next o) _ Hidx) as (st' & Hrest & Hsame' & Hidx').
    { rewrite Hsame. apply Z.mod_pos_bound. lia. }
    exists st'. cbn [repeat pressKeys]. rewrite Hrun. cbn [bind].
    split; [exact Hrest|]. split; [congruence|].
    rewrite Hidx', Hsame, Zplus_mod_idemp_l. f_equal. f_equal. lia.
Qed.

Lemma arrowUp_repeat (k : nat) :
  forall (st : State) (i : Z),
    highlightedIndex st = Fin i ->
    0 <= i < Z.of_nat (List.length (searchResults st)) ->
    exists st',
      pressKeys (repeat "ArrowUp"%string k) st = Normal st'
      /\ searchResults st' = searchResults st
      /\ highlightedIndex st'
         = Fin ((i - Z.of_nat k) mod Z.of_nat (List.length (searchResults st))).
Proof.
  induction k as [|k IH]; intros st i Hi Hrange.
  - exists st. split; [reflexivity|]. split; [reflexivity|].
    rewrite Hi, Z.sub_0_r, Z.mod_small by lia. reflexivity.
  - assert (Hrows : searchResults st <> []).
    { intros E. rewrite E in Hrange. simpl in Hrange. lia. }
    destruct (arrowUp_index st Hrows i Hi) as (o & Hrun & Hsame & Hidx).
    rewrite Z.rem_mod_nonneg in Hidx by lia.
    destruct (IH (next o) _ Hidx) as (st' & Hrest & Hsame' & Hidx').
    { rewrite Hsame. apply Z.mod_pos_bound. lia. }
    exists st'. cbn [repeat pressKeys]. rewrite Hrun. cbn [bind].
    split; [exact Hrest|]. split; [congruence|].
    rewrite Hidx', Hsame, Zminus_mod_idemp_l.
    replace (i - 1 + Z.of_nat (List.length (searchResults st)) - Z.of_nat k)
      with (i - Z.of_nat (S k) + 1 * Z.of_nat (List.length (searchResults st)))
      by lia.
    now rewrite Z_mod_plus_full.
Qed.

(** X12. With [highlightedIndex] on a row, pressing ArrowDown as many times
    as there are rows goes once around and ends on the same row, with the
    rows unchanged; so does pressing ArrowUp that many times. *)
Theorem arrows_go_around (st : State) (i : Z) :
  highlightedIndex st = Fin i ->
  0 <= i < Z.of_nat (List.length (searchResults st)) ->
  (exists st',
      pressKeys (repeat "ArrowDown"%string (List.length (searchResults st))) st
      = Normal st'
      /\ searchResults st' = searchResults st
      /\ highlightedIndex st' = Fin i)
  /\ (exists st',
        pressKeys (repeat "ArrowUp"%string (List.length (searchResults st))) st
        = Normal st'
        /\ searchResults st' = searchResults st
        /\ highlightedIndex st' = Fin i).
Proof.
  intros Hi Hrange. split.
  - destruct (arrowDown_repeat (List.length (searchResults st)) st i Hi Hrange)
      as (st' & Hrun & Hsame & Hidx).
    exists st'. split; [exact Hrun|]. split; [exact Hsame|].
    rewrite Hidx. f_equal.
    replace (i + Z.of_nat (List.length (searchResults st)))
      with (i + 1 * Z.of_nat (List.length (searchResults st))) by lia.
    rewrite Z_mod_plus_full. apply Z.mod_small. lia.
  - destruct (arrowUp_repeat (List.length (searchResults st)) st i Hi Hrange)
      as (st' & Hrun & Hsame & Hidx).
    exists st'. split; [exact Hrun|]. split; [exact Hsame|].
    rewrite Hidx. f_equal.
    replace (i - Z.of_nat (List.length (searchResults st)))
      with (i + (-1) * Z.of_nat (List.length (searchResults st))) by lia.
    rewrite Z_mod_plus_full. apply Z.mod_small. lia.
Qed.

Lemma arrows_go_around_witness :
  exists st',
    pressKeys ["ArrowDown"; "ArrowDown"; "ArrowDown"]%string
      (setHighlightedIndex (Fin 1) firstLookupState) = Normal st'
    /\ searchResults st' = map row [1; 2; 3]
    /\ highlightedIndex st' = Fin 1.
Proof.
  apply (proj1 (arrows_go_around (setHighlightedIndex (Fin 1) firstLookupState)
                  1 eq_refl ltac:(simpl; lia))).
Defined.

Lemma arrowDown_repeat_hovered (k : nat) :
  forall (st : State) (j : Z),
    hoveredIndex st = Some (Fin j) ->
    0 <= j < Z.of_nat (List.length (searchResults st)) ->
    exists st',
      pressKeys (repeat "ArrowDown"%string k) st = Normal st'
      /\ hoveredIndex st'
         = Some (Fin ((j + Z.of_nat k)
                      mod Z.of_nat (List.length (searchResults st)))).
Proof.
  induction k as [|k IH]; intros st j Hj Hrange.
  - exists st. split; [reflexivity|].
    rewrite Hj, Z.add_0_r, Z.mod_small by lia. reflexivity.
  - assert (Hrows : searchResults st <> []).
    { intros E. rewrite E in Hrange. simpl in Hrange. lia. }
    destruct (arrowDown_hovered st Hrows) as (o & Hrun & Hhov).
    assert (Hsame : searchResults (next o) = searchResults st).
    { rewrite handleKeyDown_ArrowDown in Hrun. now injection Hrun as <-. }
    rewrite Hj, Z.rem_mod_nonneg in Hhov by lia.
    destruct (IH (next o) _ Hhov) as (st' & Hrest & Hhov').
    { rewrite Hsame. apply Z.mod_pos_bound. lia. }
    exists st'. cbn [repeat pressKeys]. rewrite Hrun. cbn [bind].
    split; [exact Hrest|].
    rewrite Hhov', Hsame, Zplus_mod_idemp_l. do 3 f_equal. lia.
Qed.

(** X13. On fresh rows ([highlightedIndex] 0, no row hovered), after [k]
    presses of ArrowDown, [k] from 1 up to the number of rows exclusive, the
    row shown as hovered is row [k - 1], and Enter toggles exactly that
    row. *)
Theorem arrows_then_enter_toggle_hovered_row
    (st : State) (k : nat) (character : Character) :
  highlightedIndex st = Fin 0 ->
  hoveredIndex st = None ->
  (1 <= k < List.length (searchResults st))%nat ->
  nth_error (searchResults st) (k - 1) = Some character ->
  exists st1 st2,
    pressKeys (repeat "ArrowDown"%string k) st = Normal st1
    /\ hoveredIndex st1 = Some (Fin (Z.of_nat (k - 1)))
    /\ selectCharacter (Some character) st1 = Normal st2
    /\ pressKeys (repeat "ArrowDown"%string k ++ ["Enter"%string]) st
       = Normal st2.
Proof.
  intros Hi Hhov Hk Hrow.
  destruct k as [|k]; [lia|].
  replace (S k - 1)%nat with k in * by lia.
  assert (Hrows : searchResults st <> []).
  { intros E. rewrite E in Hk. simpl in Hk. lia. }
  (* the first press *)
  destruct (arrowDown_index st Hrows 0 Hi) as (o & Hrun & Hsame & Hidx).
  destruct (arrowDown_hovered st Hrows) as (o' & Hrun' & Hhov1).
  rewrite Hrun in Hrun'. injection Hrun' as <-.
  rewrite Hhov in Hhov1.
  rewrite Z.rem_mod_nonneg, Z.mod_small in Hidx by lia.
  (* the other presses *)
  destruct (arrowDown_repeat k (next o) _ Hidx) as (st1 & Hrest & Hsame1 & Hidx1);
    [rewrite Hsame; lia|].
  destruct (arrowDown_repeat_hovered k (next o) _ Hhov1) as (st1' & Hrest' & Hhov2);
    [rewrite Hsame; lia|].
  rewrite Hrest in Hrest'. injection Hrest' as <-.
  rewrite Hsame, Z.mod_small in Hidx1, Hhov2 by lia.
  assert (Hall : pressKeys (repeat "ArrowDown"%string (S k)) st = Normal st1).
  { cbn [repeat pressKeys]. rewrite Hrun. exact Hrest. }
  (* Enter *)
  destruct (enter_toggles_previous_row st1 (0 + 1 + Z.of_nat k) character Hidx1)
    as (st2 & Htoggle & Henter).
  { lia. }
  { rewrite Hsame1, Hsame.
    replace (Z.to_nat (0 + 1 + Z.of_nat k - 1)) with k by lia. exact Hrow. }
  exists st1, st2. split; [exact Hall|].
  split; [rewrite Hhov2; do 2 f_equal; lia|].
  split; [exact Htoggle|].
  rewrite pressKeys_app, Hall. cbn [bind pressKeys]. now rewrite Henter.
Qed.

Lemma arrows_then_enter_toggle_hovered_row_witness :
  exists st1 st2,
    pressKeys ["ArrowDown"; "ArrowDown"]%string firstLookupState = Normal st1
    /\ hoveredIndex st1 = Some (Fin 1)
    /\ selectCharacter (Some (row 2)) st1 = Normal st2
    /\ pressKeys ["ArrowDown"; "ArrowDown"; "Enter"]%string firstLookupState
       = Normal st2.
Proof.
  apply (arrows_then_enter_toggle_hovered_row firstLookupState 2 (row 2)
           eq_refl eq_refl).
  - simpl. lia.
  - reflexivity.
Defined.

(** *** The lookup *)

Lemma mapCharacters_complete (rs : list RawCharacter) :
  (forall r, In r rs -> raw_episode r <> None) ->
  exists characters,
    mapCharacters rs = Normal characters /\ Forall2 FromPayload rs characters.
Proof.
  induction rs as [|r rs IH]; intros Hall.
  - exists []. split; [reflexivity|constructor].
  - destruct IH as (cs & Hmap & Hrel); [intros r' Hin; apply Hall; now right|].
    destruct (raw_episode r) as [episode|] eqn:E;
      [|exfalso; apply (Hall r); [now left|exact E]].
    eexists. split.
    + cbn [mapCharacters]. unfold toCharacter. rewrite E. cbn [bind].
      rewrite Hmap. reflexivity.
    + constructor; [|exact Hrel].
      repeat split. now exists episode.
Qed.

(** X14. When the request resolves with a [results] array all of whose
    entries have an [episode] array, the rows are replaced by the rows of
    these entries, one per entry and in their order, each with the entry's
    id, name and image and the number of its episodes; [isLoading] becomes
    false, and [isError] and every other cell stay as they were. *)
Theorem settle_successful_lookup (rs : list RawCharacter) (st : State) :
  (forall r, In r rs -> raw_episode r <> None) ->
  exists characters,
    Forall2 FromPayload rs characters
    /\ settle (Resolved (Some rs)) st
       = mkState (searchQuery st) (selectedCharacters st) characters false
           (isError st) (highlightedIndex st) (focusedSelectedIndex st)
           (hoveredIndex st).
Proof.
  intros Hall.
  destruct (mapCharacters_complete rs Hall) as (characters & Hmap & Hrel).
  exists characters. split; [exact Hrel|].
  cbn [settle onFulfilled]. now rewrite Hmap.
Qed.

Lemma settle_successful_lookup_witness :
  exists characters,
    Forall2 FromPayload (map rawRow [1; 2; 3]) characters
    /\ settle (Resolved (Some (map rawRow [1; 2; 3])))
         (mkState "r" [rick] [morty] true true (Fin 4) None None)
       = mkState "r" [rick] characters false true (Fin 4) None None.
Proof.
  apply (settle_successful_lookup (map rawRow [1; 2; 3])
           (mkState "r" [rick] [morty] true true (Fin 4) None None)).
  intros r Hin. simpl in Hin.
  destruct Hin as [<-|[<-|[<-|[]]]]; discriminate.
Defined.

(** X15. However a request settles, [isLoading] is false afterwards, and
    the query, the selection and the three indices are untouched; the error
    flag is never cleared, and the rows change only if the error flag is
    left as it was. *)
Theorem settle_touches_only (reply : Reply) (st : State) :
  isLoading (settle reply st) = false
  /\ searchQuery (settle reply st) = searchQuery st
  /\ selectedCharacters (settle reply st) = selectedCharacters st
  /\ highlightedIndex (settle reply st) = highlightedIndex st
  /\ hoveredIndex (settle reply st) = hoveredIndex st
  /\ focusedSelectedIndex (settle reply st) = focusedSelectedIndex st
  /\ (isError st = true -> isError (settle reply st) = true)
  /\ (searchResults (settle reply st) <> searchResults st ->
      isError (settle reply st) = isError st).
Proof.
  destruct reply as [|[rs|]]; cbn [settle onFulfilled];
    try (repeat split; try reflexivity; intros H; now contradiction H).
  destruct (mapCharacters rs) as [characters|e]; cbn [bind];
    repeat split; try reflexivity; try tauto.
Qed.

(** *** Typing *)


(** *** What every reachable state satisfies *)

Lemma rem_from_minus_one (a n : Z) : -1 <= a -> 0 < n -> -1 <= Z.rem a n.
Proof.
  intros Ha Hn. destruct (Z.eq_dec a (-1)) as [->|Hne].
  - change (-1) with (- (1)) at 2. rewrite Z.rem_opp_l by lia.
    pose proof (Z.rem_le 1 n ltac:(lia) Hn). lia.
  - pose proof (Z.rem_bound_pos a n ltac:(lia) Hn). lia.
Qed.

Lemma arrow_keeps_indices (key : string) (st : State) (o : KeyOutcome) :
  key = "ArrowDown"%string \/ key = "ArrowUp"%string ->
  IndicesKept st ->
  handleKeyDown key st = Normal o ->
  IndicesKept (next o).
Proof.
  intros Hkey (Hfoc & Hhi & Hhov) Hrun.
  destruct (searchResults st) as [|c rs] eqn:Hrows.
  - (* no rows: the remainder is [NaN] *)
    assert (Hlen : Js.length (searchResults st) = Fin 0) by now rewrite Hrows.
    assert (Hnan : forall a, rem a (Fin 0) = NaN) by now intros [a|].
    destruct Hkey as [-> | ->];
      [rewrite handleKeyDown_ArrowDown in Hrun
      |rewrite handleKeyDown_ArrowUp in Hrun];
      injection Hrun as <-; unfold IndicesKept;
      cbn [next focusedSelectedIndex highlightedIndex hoveredIndex
             setHoveredIndex setHighlightedIndex];
      rewrite Hlen, ?Hnan; (split; [exact Hfoc|]); (split; [left; reflexivity|]).
    + destruct (hoveredIndex st) as [j|]; [right; left; now rewrite Hnan|].
      right; right. exists 0. split; [reflexivity|lia].
    + destruct (hoveredIndex st) as [j|]; [right; left; now rewrite Hnan|].
      right; right. exists (-1). rewrite Hrows. split; [reflexivity|lia].
  - assert (Hne : searchResults st <> []) by (rewrite Hrows; discriminate).
    pose proof (rows_positive st Hne) as Hn.
    destruct Hkey as [-> | ->].
    + destruct (arrowDown_hovered st Hne) as (o' & Hrun' & Hhov').
      rewrite Hrun in Hrun'. injection Hrun' as <-.
      split; [|split].
      * rewrite handleKeyDown_ArrowDown in Hrun. now injection Hrun as <-.
      * destruct Hhi as [Hnan|(i & Hi & Hpos)].
        -- left. rewrite handleKeyDown_ArrowDown in Hrun.
           injection Hrun as <-. cbn. now rewrite Hnan.
        -- destruct (arrowDown_index st Hne i Hi) as (o' & Hrun' & _ & Hidx).
           rewrite Hrun in Hrun'. injection Hrun' as <-.
           right. eexists. split; [exact Hidx|].
           apply Z.rem_bound_pos; lia.
      * rewrite Hhov'.
        destruct Hhov as [->|[->|(j & -> & Hj)]];
          [right; right; exists 0; split; [reflexivity|lia]
          |now right; left|].
        right; right. eexists. split; [reflexivity|].
        apply rem_from_minus_one; lia.
    + destruct (arrowUp_hovered st Hne) as (o' & Hrun' & Hhov').
      rewrite Hrun in Hrun'. injection Hrun' as <-.
      split; [|split].
      * rewrite handleKeyDown_ArrowUp in Hrun. now injection Hrun as <-.
      * destruct Hhi as [Hnan|(i & Hi & Hpos)].
        -- left. rewrite handleKeyDown_ArrowUp in Hrun.
           injection Hrun as <-. cbn. now rewrite Hnan.
        -- destruct (arrowUp_index st Hne i Hi) as (o' & Hrun' & _ & Hidx).
           rewrite Hrun in Hrun'. injection Hrun' as <-.
           right. eexists. split; [exact Hidx|].
           apply Z.rem_bound_pos; lia.
      * rewrite Hhov'.
        destruct Hhov as [->|[->|(j & -> & Hj)]];
          [right; right; eexists; split; [reflexivity|lia]
          |now right; left|].
        right; right. eexists. split; [reflexivity|].
        apply rem_from_minus_one; lia.
Qed.

Lemma IndicesKept_same_cells (st st' : State) :
  focusedSelectedIndex st' = focusedSelectedIndex st ->
  highlightedIndex st' = highlightedIndex st ->
  hoveredIndex st' = hoveredIndex st ->
  IndicesKept st -> IndicesKept st'.
Proof. unfold IndicesKept. now intros -> -> ->. Qed.

Lemma handleKeyDown_keeps_indices (key : string) (st : State) (o : KeyOutcome) :
  IndicesKept st -> handleKeyDown key st = Normal o -> IndicesKept (next o).
Proof.
  intros Hkept.
  destruct (handleKeyDown_cases key st) as [->|[->|[->|[Hdel|Hother]]]].
  - apply arrow_keeps_indices; [now left|exact Hkept].
  - apply arrow_keeps_indices; [now right|exact Hkept].
  - rewrite handleKeyDown_Enter.
    destruct (gt _ _); [|intros [= <-]; exact Hkept].
    destruct (selectCharacter _ st) as [st'|] eqn:E; [|discriminate].
    intros [= <-]. cbn [next].
    apply selectCharacter_cells in E. rewrite E.
    now apply (IndicesKept_same_cells st).
  - rewrite (handleKeyDown_delete_keys key st Hdel).
    destruct (_ && _)%bool; intros [= <-]; [|exact Hkept].
    now apply (IndicesKept_same_cells st).
  - rewrite Hother. intros [= <-]. exact Hkept.
Qed.

Lemma step_keeps_indices (e : Event) (w w' : World) :
  IndicesKept (ui w) -> step e w = Normal w' -> IndicesKept (ui w').
Proof.
  intros Hkept. destruct e; unfold step.
  - destruct (String.eqb _ _); [intros [= <-]; exact Hkept|].
    unfold lookupEffect. destruct (gt _ _); intros [= <-]; exact Hkept.
  - destruct (handleKeyDown key (ui w)) as [o|] eqn:E; [|discriminate].
    intros [= <-]. eapply handleKeyDown_keeps_indices; eassumption.
  - destruct (nth_error _ _); intros [= <-]; exact Hkept.
  - destruct (nth_error _ _) as [c|]; [|intros [= <-]; exact Hkept].
    destruct (selectCharacter (Some c) (ui w)) as [st'|] eqn:E; [|discriminate].
    intros [= <-]. cbn [ui]. apply selectCharacter_cells in E. rewrite E.
    now apply (IndicesKept_same_cells (ui w)).
  - destruct (nth_error _ _); intros [= <-]; [|exact Hkept].
    destruct Hkept as (Hfoc & Hhi & _). split; [exact Hfoc|].
    split; [exact Hhi|]. right; right. eexists. split; [reflexivity|lia].
  - intros [= <-]. destruct Hkept as (Hfoc & Hhi & _).
    split; [exact Hfoc|]. split; [exact Hhi|]. now left.
  - destruct (nth_error _ _); intros [= <-]; [|exact Hkept].
    cbn [ui]. apply (IndicesKept_same_cells (ui w)); [| | |exact Hkept];
      destruct reply as [|[rs|]]; cbn [settle onFulfilled]; try reflexivity;
      now destruct (mapCharacters rs).
Qed.

(** X17. In every state the component can reach, [focusedSelectedIndex] is
    still null (nothing ever sets it), [highlightedIndex] is [NaN] or a
    non-negative integer, and [hoveredIndex] is null, [NaN] or an integer
    not below -1. *)
Theorem reachable_indices (w : World) :
  Reachable w ->
  focusedSelectedIndex (ui w) = None
  /\ (highlightedIndex (ui w) = NaN
      \/ exists i, highlightedIndex (ui w) = Fin i /\ 0 <= i)
  /\ (hoveredIndex (ui w) = None \/ hoveredIndex (ui w) = Some NaN
      \/ exists j, hoveredIndex (ui w) = Some (Fin j) /\ -1 <= j).
Proof.
  intros (es & Hrun). change (IndicesKept (ui w)).
  assert (Hgen : forall w0, IndicesKept (ui w0) -> run es w0 = Normal w ->
                 IndicesKept (ui w)).
  { clear Hrun. induction es as [|e es IH]; simpl; intros w0 Hkept Hrun.
    - injection Hrun as <-. exact Hkept.
    - destruct (step e w0) as [w1|] eqn:E; simpl in Hrun; [|discriminate].
      apply (IH w1); [|exact Hrun]. eapply step_keeps_indices; eassumption. }
  apply (Hgen mount); [|exact Hrun].
  split; [reflexivity|]. split; [|now left].
  right. exists 0. split; [reflexivity|lia].
Qed.

Lemma reachable_indices_witness :
  focusedSelectedIndex staleIndexState = None
  /\ (highlightedIndex staleIndexState = NaN
      \/ exists i, highlightedIndex staleIndexState = Fin i /\ 0 <= i)
  /\ (hoveredIndex staleIndexState = None
      \/ hoveredIndex staleIndexState = Some NaN
      \/ exists j, hoveredIndex staleIndexState = Some (Fin j) /\ -1 <= j).
Proof.
  apply (reachable_indices (mkWorld staleIndexState [])).
  exists staleIndex. reflexivity.
Defined.

(** *** Highlighting, further *)

Lemma Highlighted_contents (q text : string) (spans : list Span) :
  Highlighted q text spans -> String.concat "" (map content spans) = text.
Proof.
  induction 1 as [text _|before occ after spans _ _ _ _ IH]; [reflexivity|].
  cbn [map content]. now rewrite !concat_nil_cons, IH.
Qed.

(** X18. For every text and every non-empty query, both of ASCII
    characters and the query without pattern syntax characters,
    [highlightText] returns spans that cut the text at the occurrences of
    the query, letter case aside, taken from the left: occurrences bold,
    the stretches between them plain; put together, the spans give back the
    text. *)
Theorem highlightText_cuts_at_occurrences (q text : string) :
  asciiOnly q = true ->
  asciiOnly text = true ->
  q <> EmptyString ->
  plainQuery q = true ->
  exists spans,
    highlightText text q = Some (Normal spans)
    /\ Highlighted q text spans
    /\ String.concat "" (map content spans) = text.
Proof.
  intros _ _ Hq Hplain.
  destruct (highlightText_plain_query q Hq text Hplain) as (spans & Hrun & Hcut).
  exists spans. split; [exact Hrun|]. split; [exact Hcut|].
  eapply Highlighted_contents. exact Hcut.
Qed.

Lemma highlightText_cuts_at_occurrences_witness :
  exists spans,
    highlightText "Rick Sanchez" "ic" = Some (Normal spans)
    /\ Highlighted "ic" "Rick Sanchez" spans
    /\ String.concat "" (map content spans) = "Rick Sanchez"%string.
Proof.
  apply highlightText_cuts_at_occurrences;
    [reflexivity|reflexivity|discriminate|reflexivity].
Defined.

(** X19. Against the empty query [highlightText] returns normally for every
    text; the plain spans, put together, are the text, and every bold span
    is empty. *)
Theorem highlightText_empty_query_leaves_text_plain (text : string) :
  exists spans,
    highlightText text "" = Some (Normal spans)
    /\ String.concat ""
         (map content (filter (fun sp => negb (bold sp)) spans)) = text
    /\ Forall (fun sp => bold sp = true -> content sp = EmptyString) spans.
Proof.
  exists (emptyQuerySpans text).
  split; [apply highlightText_empty_query|].
  apply emptyQuerySpans_plain_text.
Qed.

Section Unbalanced.

Variables (before after : string).
Hypothesis (Hbefore : plainQuery before = true).
Hypothesis (Hafter : plainQuery after = true).

(** A parenthesis among plain text leaves the pattern unbalanced. *)
Lemma RegExp_open_parenthesis :
  RegExp ("(" ++ (before ++ "(" ++ after) ++ ")") = Invalid.
Proof.
  unfold RegExp. rewrite !append_assoc. cbn [append parseTerms Ascii.eqb Bool.eqb].
  rewrite (parseTerms_plain before _ _ _ Hbefore).
  cbn [append parseTerms Ascii.eqb Bool.eqb].
  rewrite (parseTerms_plain after _ _ _ Hafter).
  reflexivity.
Qed.

Lemma RegExp_close_parenthesis :
  RegExp ("(" ++ (before ++ ")" ++ after) ++ ")") = Invalid.
Proof.
  unfold RegExp. rewrite !append_assoc. cbn [append parseTerms Ascii.eqb Bool.eqb].
  rewrite (parseTerms_plain before _ _ _ Hbefore).
  cbn [append parseTerms Ascii.eqb Bool.eqb].
  rewrite (parseTerms_plain after _ _ _ Hafter).
  reflexivity.
Qed.

End Unbalanced.

(** X20. A query that is plain text with one parenthesis in it, opening or
    closing, makes [highlightText] throw a [SyntaxError] whatever the
    text. *)
Theorem highlightText_lone_parenthesis_throws (before after text : string) :
  plainQuery before = true ->
  plainQuery after = true ->
  highlightText text (before ++ "(" ++ after) = Some (Throw SyntaxError)
  /\ highlightText text (before ++ ")" ++ after) = Some (Throw SyntaxError).
Proof.
  intros Hbefore Hafter. unfold highlightText.
  now rewrite RegExp_open_parenthesis, RegExp_close_parenthesis.
Qed.

Lemma highlightText_lone_parenthesis_throws_witness :
  highlightText "Rick Sanchez" "Rick (C-137" = Some (Throw SyntaxError)
  /\ highlightText "Rick Sanchez" "C-137)" = Some (Throw SyntaxError).
Proof.
  split.
  - apply (proj1 (highlightText_lone_parenthesis_throws "Rick " "C-137"
                    "Rick Sanchez" eq_refl eq_refl)).
  - apply (proj2 (highlightText_lone_parenthesis_throws "C-137" ""
                    "Rick Sanchez" eq_refl eq_refl)).
Defined.

Lemma startsWithCI_case (q q' : string) :
  toLowerCase q = toLowerCase q' ->
  forall s, startsWithCI q s = startsWithCI q' s.
Proof.
  revert q'. induction q as [|c q IH]; intros [|c' q'] Hlow s;
    try discriminate; [reflexivity|].
  injection Hlow as Hc Hlow. destruct s as [|d s]; [reflexivity|].
  cbn [startsWithCI]. now rewrite Hc, (IH q' Hlow).
Qed.

Lemma splitLoop_same_matches (R R' : list node) (s : string) :
  (forall s', matchNodes R s' = matchNodes R' s') ->
  forall fuel p k A, splitLoop fuel R s p k A = splitLoop fuel R' s p k A.
Proof.
  intros Hsame. induction fuel as [|fuel IH]; intros p k A; [reflexivity|].
  cbn [splitLoop]. rewrite Hsame.
  destruct (Nat.ltb k (String.length s)); [|reflexivity].
  destruct (matchNodes R' (drop k s)) as [[caps r]|]; [|apply IH].
  destruct (Nat.eqb _ p); apply IH.
Qed.

(** X21. The letter case of the query does not matter: two queries without
    pattern syntax characters that are equal letter case aside give the same
    spans on every text. *)
Theorem highlightText_query_case (q q' text : string) :
  plainQuery q = true ->
  plainQuery q' = true ->
  toLowerCase q = toLowerCase q' ->
  highlightText text q = highlightText text q'.
Proof.
  intros Hq Hq' Hlow. unfold highlightText.
  rewrite (RegExp_plain q Hq), (RegExp_plain q' Hq'), <- Hlow.
  assert (Hsame : forall s,
             matchNodes [Group (map Char (list_ascii_of_string q))] s
             = matchNodes [Group (map Char (list_ascii_of_string q'))] s).
  { intros s. rewrite !matchNodes_plain, (startsWithCI_case q q' Hlow).
    replace (String.length q') with (String.length q); [reflexivity|].
    now rewrite <- (length_toLowerCase q), Hlow, length_toLowerCase. }
  unfold split. rewrite Hsame.
  now rewrite (splitLoop_same_matches _ _ text Hsame).
Qed.

Lemma highlightText_query_case_witness :
  highlightText "Morty Smith" "MORTY" = highlightText "Morty Smith" "morty".
Proof.
  apply highlightText_query_case; reflexivity.
Defined.

(** *** What is rendered *)

Lemma highlightText_compiled (q text : string) (R : list node) :
  RegExp ("(" ++ q ++ ")") = Pattern R ->
  exists spans, highlightText text q = Some (Normal spans).
Proof. intros H. unfold highlightText. rewrite H. eexists. reflexivity. Qed.

Lemma renderRows_rows (st : State) (R : list node) :
  RegExp ("(" ++ searchQuery st ++ ")") = Pattern R ->
  forall characters index,
    exists rs,
      renderRows st index characters = Some (Normal rs)
      /\ List.length rs = List.length characters
      /\ forall k c,
           nth_error characters k = Some c ->
           exists r,
             nth_error rs k = Some r
             /\ rowKey r = id c
             /\ checked r = isCharacterSelected (id c) st
             /\ highlightText (name c) (searchQuery st)
                = Some (Normal (nameSpans r))
             /\ imgSrc r = image c /\ imgAlt r = name c
             /\ episodes r = episodeCount c
             /\ className r = rowClassName (index + k) st.
Proof.
  intros HR. induction characters as [|c cs IH]; intros index.
  - exists []. split; [reflexivity|]. split; [reflexivity|].
    intros [|k] c H; discriminate H.
  - destruct (highlightText_compiled _ (name c) R HR) as (spans & Hspans).
    destruct (IH (S index)) as (rs & Hrs & Hlen & Hrows).
    eexists. cbn [renderRows]. rewrite Hspans, Hrs.
    split; [reflexivity|]. split; [simpl; now rewrite Hlen|].
    intros [|k] c' Hc'.
    + injection Hc' as <-. eexists. split; [reflexivity|].
      cbn. rewrite Nat.add_0_r. repeat split. exact Hspans.
    + destruct (Hrows k c' Hc') as (r & Hr & Hfacts).
      exists r. split; [exact Hr|].
      now replace (index + S k)%nat with (S index + k)%nat by lia.
Qed.

(** X22. For a query without pattern syntax characters (the empty one
    included) the component renders: the input shows the query, the loading
    and error lines follow their flags, there is a tag per selected item
    and a row per result, in order; a row's checkbox is checked exactly when
    the row's id is selected, and its name is the row's name highlighted
    against the query. *)
Theorem render_shows_state (st : State) :
  plainQuery (searchQuery st) = true ->
  exists v,
    render st = Some (Normal v)
    /\ inputValue v = searchQuery st
    /\ showLoading v = isLoading st
    /\ showError v = isError st
    /\ map tagKey (tags v) = map id (selectedCharacters st)
    /\ map tagName (tags v) = map name (selectedCharacters st)
    /\ List.length (rows v) = List.length (searchResults st)
    /\ forall k c,
         nth_error (searchResults st) k = Some c ->
         exists r,
           nth_error (rows v) k = Some r
           /\ rowKey r = id c
           /\ (checked r = true <-> In (id c) (map id (selectedCharacters st)))
           /\ highlightText (name c) (searchQuery st)
              = Some (Normal (nameSpans r))
           /\ imgSrc r = image c /\ imgAlt r = name c
           /\ episodes r = episodeCount c.
Proof.
  intros Hplain.
  destruct (renderRows_rows st _ (RegExp_plain _ Hplain) (searchResults st) 0)
    as (rs & Hrs & Hlen & Hrows).
  eexists. unfold render. rewrite Hrs. split; [reflexivity|].
  cbn [inputValue showLoading showError tags rows].
  do 3 (split; [reflexivity|]).
  split; [now rewrite map_map|]. split; [now rewrite map_map|].
  split; [exact Hlen|].
  intros k c Hc.
  destruct (Hrows k c Hc) as (r & Hr & Hkey & Hchecked & Hname & Hsrc & Halt & Hep & _).
  exists r. split; [exact Hr|]. split; [exact Hkey|].
  split; [rewrite Hchecked; apply some_id_spec|]. tauto.
Qed.

Lemma render_shows_state_witness :
  exists v,
    render (setSelectedCharacters [row 2] firstLookupState) = Some (Normal v)
    /\ List.length (rows v) = 3%nat
    /\ map tagKey (tags v) = [2].
Proof.
  destruct (render_shows_state (setSelectedCharacters [row 2] firstLookupState)
              eq_refl)
    as (v & Hrun & _ & _ & _ & Hkeys & _ & Hlen & _).
  exists v. split; [exact Hrun|]. split; [exact Hlen|exact Hkeys].
Defined.

Lemma renderRows_invalid (st : State) (c : Character) (cs : list Character)
    (index : nat) :
  RegExp ("(" ++ searchQuery st ++ ")") = Invalid ->
  renderRows st index (c :: cs) = Some (Throw SyntaxError).
Proof.
  intros HR. cbn [renderRows]. unfold highlightText. now rewrite HR.
Qed.

(** X23. While there are no rows the component renders whatever the query
    is, since nothing is highlighted; with a row present, a query that is
    plain text with one parenthesis in it makes the render throw a
    [SyntaxError]. *)
Theorem render_throws_on_lone_parenthesis (st : State) :
  (searchResults st = [] ->
   exists v, render st = Some (Normal v) /\ rows v = []
             /\ inputValue v = searchQuery st)
  /\ (forall before after,
        plainQuery before = true ->
        plainQuery after = true ->
        searchQuery st = (before ++ "(" ++ after)%string
        \/ searchQuery st = (before ++ ")" ++ after)%string ->
        searchResults st <> [] ->
        render st = Some (Throw SyntaxError)).
Proof.
  split.
  - intros Hnone. unfold render. rewrite Hnone. cbn [renderRows].
    eexists. split; [reflexivity|]. now split.
  - intros before after Hbefore Hafter Hquery Hrows. unfold render.
    destruct (searchResults st) as [|c cs]; [contradiction|].
    rewrite renderRows_invalid; [reflexivity|].
    destruct Hquery as [-> | ->];
      [now apply RegExp_open_parenthesis|now apply RegExp_close_parenthesis].
Qed.

(** No rows: a query ending in a bracket and one ending in a parenthesis
    both render.  Three rows: the latter throws. *)
Lemma render_throws_on_lone_parenthesis_witness :
  render (setSearchQuery "Rick (" firstLookupState) = Some (Throw SyntaxError)
  /\ (exists v,
        render (setSearchQuery "Rick (" initialState) = Some (Normal v)
        /\ rows v = [] /\ inputValue v = "Rick ("%string)
  /\ (exists v,
        render (setSearchQuery "Rick [" initialState) = Some (Normal v)
        /\ rows v = [] /\ inputValue v = "Rick ["%string).
Proof.
  split; [|split].
  - apply (proj2 (render_throws_on_lone_parenthesis
                    (setSearchQuery "Rick (" firstLookupState)) "Rick " ""
             eq_refl eq_refl (or_introl eq_refl)).
    discriminate.
  - apply (proj1 (render_throws_on_lone_parenthesis
                    (setSearchQuery "Rick (" initialState))).
    reflexivity.
  - apply (proj1 (render_throws_on_lone_parenthesis
                    (setSearchQuery "Rick [" initialState))).
    reflexivity.
Defined.

Lemma equalsCell_row (index k : nat) :
  equalsCell (Fin (Z.of_nat index)) (Some (Fin (Z.of_nat k))) = true
  <-> index = k.
Proof.
  cbn [equalsCell strictEquals]. rewrite Z.eqb_eq. lia.
Qed.

Lemma rowClassName_hovered (st : State) (k index : nat) :
  focusedSelectedIndex st = None ->
  hoveredIndex st = Some (Fin (Z.of_nat k)) ->
  (rowClassName index st = "result-item hovered "%string <-> index = k)
  /\ (index <> k -> rowClassName index st = "result-item  "%string).
Proof.
  intros Hfoc Hhov. unfold rowClassName. rewrite Hfoc, Hhov.
  destruct (equalsCell_row index k) as [Hto Hfrom].
  destruct (equalsCell (Fin (Z.of_nat index)) (Some (Fin (Z.of_nat k)))) eqn:E;
    cbn [equalsCell append].
  - split; [split; [intros _; now apply Hto|reflexivity]|].
    intros Hne. exfalso. apply Hne. now apply Hto.
  - split; [split; [discriminate|]|reflexivity].
    intros Heq. apply Hfrom in Heq. discriminate Heq.
Qed.

Lemma rowClassName_not_hovered (st : State) (index : nat) :
  focusedSelectedIndex st = None ->
  hoveredIndex st = None ->
  rowClassName index st = "result-item  "%string.
Proof.
  intros Hfoc Hhov. unfold rowClassName. now rewrite Hfoc, Hhov.
Qed.

(** The rows of a render carry the class strings of their positions. *)
Lemma render_row_classes (st : State) :
  plainQuery (searchQuery st) = true ->
  exists v,
    render st = Some (Normal v)
    /\ List.length (rows v) = List.length (searchResults st)
    /\ forall index c,
         nth_error (searchResults st) index = Some c ->
         exists r,
           nth_error (rows v) index = Some r
           /\ rowKey r = id c
           /\ className r = rowClassName index st.
Proof.
  intros Hplain.
  destruct (renderRows_rows st _ (RegExp_plain _ Hplain) (searchResults st) 0)
    as (rs & Hrs & Hlen & Hrows).
  eexists. unfold render. rewrite Hrs. split; [reflexivity|].
  cbn [rows]. split; [exact Hlen|].
  intros index c Hc.
  destruct (Hrows index c Hc) as (r & Hr & Hkey & _ & _ & _ & _ & _ & Hclass).
  exists r. split; [exact Hr|]. split; [exact Hkey|exact Hclass].
Qed.

(** X24. In a state with [focusedSelectedIndex] null and a query without
    pattern syntax characters: once the pointer has entered row [k], the
    component renders a row per result, and the rendered row [k], and no
    other rendered row, has the class string with "hovered"; once the
    pointer has left, no rendered row has it. *)
Theorem mouse_marks_hovered_row (st : State) (k : nat) :
  focusedSelectedIndex st = None ->
  plainQuery (searchQuery st) = true ->
  exists entered left,
    render (handleMouseEnter (Fin (Z.of_nat k)) st) = Some (Normal entered)
    /\ render (handleMouseLeave st) = Some (Normal left)
    /\ List.length (rows entered) = List.length (searchResults st)
    /\ List.length (rows left) = List.length (searchResults st)
    /\ forall index c,
         nth_error (searchResults st) index = Some c ->
         exists r r',
           nth_error (rows entered) index = Some r
           /\ rowKey r = id c
           /\ (className r = "result-item hovered "%string <-> index = k)
           /\ (index <> k -> className r = "result-item  "%string)
           /\ nth_error (rows left) index = Some r'
           /\ rowKey r' = id c
           /\ className r' = "result-item  "%string.
Proof.
  intros Hfoc Hplain.
  destruct (render_row_classes (handleMouseEnter (Fin (Z.of_nat k)) st) Hplain)
    as (entered & Hentered & Hlen & Hrows).
  destruct (render_row_classes (handleMouseLeave st) Hplain)
    as (left & Hleft & Hlen' & Hrows').
  exists entered, left.
  split; [exact Hentered|]. split; [exact Hleft|].
  split; [exact Hlen|]. split; [exact Hlen'|].
  intros index c Hc.
  destruct (Hrows index c Hc) as (r & Hr & Hkey & Hclass).
  destruct (Hrows' index c Hc) as (r' & Hr' & Hkey' & Hclass').
  exists r, r'.
  destruct (rowClassName_hovered (handleMouseEnter (Fin (Z.of_nat k)) st)
              k index Hfoc eq_refl) as [Hiff Hother].
  rewrite Hclass, Hclass'.
  split; [exact Hr|]. split; [exact Hkey|]. split; [exact Hiff|].
  split; [exact Hother|]. split; [exact Hr'|]. split; [exact Hkey'|].
  now apply rowClassName_not_hovered.
Qed.

Lemma mouse_marks_hovered_row_witness :
  exists entered left,
    render (handleMouseEnter (Fin 1) firstLookupState) = Some (Normal entered)
    /\ render (handleMouseLeave firstLookupState) = Some (Normal left)
    /\ map className (rows entered)
       = ["result-item  "; "result-item hovered "; "result-item  "]%string
    /\ map className (rows left)
       = ["result-item  "; "result-item  "; "result-item  "]%string.
Proof.
  destruct (mouse_marks_hovered_row firstLookupState 1 eq_refl eq_refl)
    as (entered & left & Hentered & Hleft & _).
  exists entered, left.
  split; [exact Hentered|]. split; [exact Hleft|].
  injection Hentered as <-. injection Hleft as <-.
  split; reflexivity.
Defined.

Lemma filter_removeNth (sel : list Character) :
  UniqueIds sel ->
  forall k c,
    nth_error sel k = Some c ->
    filter (fun x => negb (id x =? id c)) sel = removeNth k sel.
Proof.
  unfold UniqueIds. induction sel as [|x sel IH]; intros Hu k c Hk.
  - destruct k; discriminate Hk.
  - simpl in Hu. inversion Hu as [|? ? Hnotin Hrest]; subst.
    destruct k as [|k]; simpl in Hk.
    + injection Hk as <-. simpl. rewrite Z.eqb_refl. simpl.
      now apply filter_absent.
    + simpl. destruct (Z.eqb_spec (id x) (id c)) as [E|E]; simpl.
      * exfalso. apply Hnotin. rewrite E. apply in_map.
        eapply nth_error_In. exact Hk.
      * f_equal. now apply IH.
Qed.

(** X25. With pairwise distinct ids in the selection, a click on the tag at
    position [k] returns normally; the selection afterwards is the former
    one without its [k]-th entry, and every other cell and the pending
    requests are as before. *)
Theorem click_tag_removes_that_tag (w : World) (k : nat) (c : Character) :
  UniqueIds (selectedCharacters (ui w)) ->
  nth_error (selectedCharacters (ui w)) k = Some c ->
  exists w',
    step (ClickTag k) w = Normal w'
    /\ selectedCharacters (ui w') = removeNth k (selectedCharacters (ui w))
    /\ OtherCellsKept (ui w) (ui w')
    /\ pending w' = pending w.
Proof.
  intros Hu Hk. unfold step. rewrite Hk.
  eexists. split; [reflexivity|].
  cbn [ui pending]. split; [|split; [repeat split|reflexivity]].
  unfold removeCharacter. cbn [selectedCharacters setSelectedCharacters].
  apply (filter_removeNth _ Hu k c Hk).
Qed.

Lemma click_tag_removes_that_tag_witness :
  exists w',
    step (ClickTag 1)
      (mkWorld (setSelectedCharacters [rick; morty; summer] firstLookupState) [])
    = Normal w'
    /\ selectedCharacters (ui w') = [rick; summer].
Proof.
  destruct (click_tag_removes_that_tag
              (mkWorld (setSelectedCharacters [rick; morty; summer]
                          firstLookupState) []) 1 morty)
    as (w' & Hrun & Hsel & _).
  - unfold UniqueIds. simpl.
    repeat constructor; simpl; intros H;
      repeat (destruct H as [H|H]; [discriminate H|]); exact H.
  - reflexivity.
  - exists w'. split; [exact Hrun|exact Hsel].
Defined.
